(** * S3LineReader: a shallow embedding of s3-readline

    The repository holds three snapshots of the class [S3LineReader]:

    - [src/s3-line-reader.ts]: constructor
      [(bucket, key, s3Config, bufferSize)] and
      [async *getLines(lineDelimiter)]; the bytes carried over are put in
      front of the next chunk before it is scanned ([Module Positional]);
    - [src/unnamed/part_000]: constructor [(bucket, key, config)];
      [getLines()] hands out the one generator made by
      [getLinesGenerator], whose loop is the loop above ([Module Options]);
    - [src/unnamed/part_001]: constructor
      [(bucket, key, bufferSize, s3Config)]; the chunk is scanned first and
      the bytes carried over are joined to it afterwards ([Module Append]).

    The service is the one of [src/s3-line-reader.spec.ts] ([Module Mock]).

    Numbers that count bytes are integers of [Z].  A string is a [string],
    one 8-bit character for each byte of the object: the decoding done by
    [buffer += d] in [readStream] leaves every byte as it is.  An async
    generator is a frame (where it is suspended, with the locals that are
    live there), and [next()] runs the body from that frame to the next
    [yield], [return] or exception.  A loop that can iterate without a
    [yield] takes a [fuel]; when it runs out the call is [Pending] and the
    frame [Executing]. *)

From Stdlib Require Import String Ascii List ZArith Lia Bool.
Import ListNotations.

Local Open Scope string_scope.
Local Open Scope Z_scope.

(** ** JavaScript strings *)

Module JS.

(** [s.startsWith(d)] *)
Fixpoint startsWith (s d : string) : bool :=
  match d with
  | EmptyString => true
  | String c d' =>
      match s with
      | EmptyString => false
      | String c' s' => Ascii.eqb c c' && startsWith s' d'
      end
  end.

(** [s.indexOf(d)]: the least position at which [d] occurs in [s];
    [None] stands for [-1].  The empty string occurs at position 0. *)
Fixpoint indexOf (s d : string) : option nat :=
  if startsWith s d then Some 0%nat
  else match s with
       | EmptyString => None
       | String _ s' => option_map S (indexOf s' d)
       end.

Fixpoint take (n : nat) (s : string) : string :=
  match n, s with
  | S n', String c s' => String c (take n' s')
  | _, _ => EmptyString
  end.

Fixpoint drop (n : nat) (s : string) : string :=
  match n, s with
  | S n', String _ s' => drop n' s'
  | _, _ => s
  end.

(** [s.substring(a, b)]: the characters from [min a b] up to, not
    including, [max a b], both clipped to the length of [s]. *)
Definition substring (s : string) (a b : nat) : string :=
  take (Nat.max a b - Nat.min a b) (drop (Nat.min a b) s).

(** [s.substring(a)] *)
Definition substringFrom (s : string) (a : nat) : string := drop a s.


End JS.

Import JS.

(** ['\n'] and ['\r\n'] *)
Definition LF : string := String "010"%char "".
Definition CRLF : string := String "013"%char LF.

(** ** The S3 client, as far as the reader uses it *)

(** How a call ends: with a value, or with an exception [e]. *)
Inductive completion (E A : Type) : Type :=
| Normal (a : A)
| Abrupt (e : E).
Arguments Normal {E A} a.
Arguments Abrupt {E A} e.

Module Client.

Record HeadObjectOutput := { ContentLength : option Z }.

(** A readable stream: its ['data'] events in order, then ['end']
    ([failure = None]) or ['error'] ([failure = Some e]). *)
Record Readable (E : Type) := { chunks : list string; failure : option E }.
Arguments chunks {E} r.
Arguments failure {E} r.

Record GetObjectOutput (E : Type) := { Body : option (Readable E) }.
Arguments Body {E} g.

(** [Range] holds the two numbers of [`bytes=${first}-${last}`]. *)
Record GetObjectCommand := { Bucket : string; Key : string; Range : Z * Z }.

(** The client with the service behind it.  [C] is the state of that
    service and of the connection; every call may change it. *)
Record S3 (E C : Type) := {
  headObject : C -> string -> string -> completion E HeadObjectOutput * C;
  send : C -> GetObjectCommand -> completion E (GetObjectOutput E) * C
}.
Arguments headObject {E C} s c bucket key.
Arguments send {E C} s c command.

End Client.

Import Client.

(** ** Generators *)

(** The fields the three snapshots share.  [this.s3] is a parameter of the
    sections below. *)
Record reader := {
  bucket : string;
  key : string;
  bufferSize : Z;
  byteOffset : Z;
  partial : string;
  size : Z
}.

Definition set_byteOffset (n : Z) (this : reader) : reader :=
  {| bucket := bucket this; key := key this; bufferSize := bufferSize this;
     byteOffset := n; partial := partial this; size := size this |}.

Definition set_partial (s : string) (this : reader) : reader :=
  {| bucket := bucket this; key := key this; bufferSize := bufferSize this;
     byteOffset := byteOffset this; partial := s; size := size this |}.

Definition set_size (n : Z) (this : reader) : reader :=
  {| bucket := bucket this; key := key this; bufferSize := bufferSize this;
     byteOffset := byteOffset this; partial := partial this; size := n |}.

(** Where a generator stands.  At a [yield] of the inner loop the locals
    [data] and [nextNewline] are live. *)
Inductive frame :=
| SuspendedStart
| SuspendedYield (data : string) (nextNewline : nat)
| Executing
| Completed.

(** What the promise returned by [next()] settles to: [{value, done: false}],
    [{value, done: true}] ([None] is [undefined]), a rejection, or nothing
    yet. *)
Inductive settled (E : Type) : Type :=
| Yielded (value : string)
| Returned (value : option string)
| Rejected (e : E)
| Pending.
Arguments Yielded {E} value.
Arguments Returned {E} value.
Arguments Rejected {E} e.
Arguments Pending {E}.

(** One call of [next()]: its result, the frame it leaves, and the state of
    the service and of the reader after it. *)
Record turn (E C : Type) := {
  result : settled E;
  gen : frame;
  conn : C;
  self : reader
}.
Arguments Build_turn {E C} result gen conn self.
Arguments result {E C} t.
Arguments gen {E C} t.
Arguments conn {E C} t.
Arguments self {E C} t.

(** One pass of an inner [while (data.length)] loop ends at a [yield] or
    leaves the loop. *)
Inductive scanned :=
| Line (nextLine : string) (data : string) (nextNewline : nat) (this : reader)
| Exit (this : reader)
| Spinning.

Section ReadStream.

Context {E : Type}.

(** [readStream]: [buffer += d] on every ['data'], [resolve(buffer)] on
    ['end'], [reject(e)] on ['error']. *)
Definition readStream (stream : Readable E) : completion E string :=
  let buffer := fold_left append (chunks stream) "" in
  match failure stream with
  | None => Normal buffer
  | Some e => Abrupt e
  end.

End ReadStream.

(** The consumer of the doc comment,
    [do { line = await lineIterator.next() } while (!line.done)]:
    the values of the steps with [done = false], and the last step. *)
Section Consumer.

Context {E C : Type}.
Variable next : nat -> C -> reader -> frame -> turn E C.

Fixpoint drain (fuel : nat) (c : C) (this : reader) (fr : frame)
  : list string * turn E C :=
  match fuel with
  | O => ([], Build_turn Pending fr c this)
  | S fuel' =>
      let t := next fuel' c this fr in
      match result t with
      | Yielded line =>
          let (lines, last) := drain fuel' (conn t) (self t) (gen t) in
          (line :: lines, last)
      | _ => ([], t)
      end
  end.

(** The last of some calls of [next()], each with its own fuel; before the
    first call nothing has settled. *)
Definition after (fuels : list nat) (c : C) (this : reader) (fr : frame)
  : turn E C :=
  fold_left (fun t fuel => next fuel (conn t) (self t) (gen t)) fuels
    (Build_turn Pending fr c this).

End Consumer.

(** ** The loop of [src/s3-line-reader.ts] and [src/unnamed/part_000]

    The two bodies are the same statement for statement; the delimiter is
    the parameter [lineDelimiter] in the first and the field
    [this.lineDelimiter] in the second. *)
Section Prepend.

Context {E C : Type}.
Variable s3 : S3 E C.
Variable lineDelimiter : string.

(** One pass of [while (data.length) { ... }]. *)
Definition scan (data : string) (this : reader) : scanned :=
  if (String.length data =? 0)%nat then Exit this
  else
    match indexOf data lineDelimiter with
    | None => Exit (set_partial data this)
    | Some nextNewline =>
        Line (substring data 0 nextNewline) data nextNewline this
    end.

(** [while (this.byteOffset < this.size) { ... } return this.partial] *)
Fixpoint fetchLoop (fuel : nat) (c : C) (this : reader) : turn E C :=
  if byteOffset this <? size this then
    match fuel with
    | O => Build_turn Pending Executing c this
    | S fuel' =>
        let byteOffsetTop := byteOffset this + bufferSize this in
        let byteOffsetTop :=
          if byteOffsetTop >? size this then size this else byteOffsetTop in
        match send s3 c {| Bucket := bucket this; Key := key this;
                           Range := (byteOffset this, byteOffsetTop) |} with
        | (Abrupt e, c') => Build_turn (Rejected e) Completed c' this
        | (Normal file, c') =>
            let this := set_byteOffset (byteOffsetTop + 1) this in
            match Body file with
            | None =>
                Build_turn (Returned (Some (partial this))) Completed c' this
            | Some body =>
                match readStream body with
                | Abrupt e => Build_turn (Rejected e) Completed c' this
                | Normal data =>
                    let data := partial this ++ data in
                    let this := set_partial "" this in
                    match scan data this with
                    | Line line data nextNewline this =>
                        Build_turn (Yielded line)
                          (SuspendedYield data nextNewline) c' this
                    | Exit this => fetchLoop fuel' c' this
                    | Spinning => Build_turn Pending Executing c' this
                    end
                end
            end
        end
    end
  else Build_turn (Returned (Some (partial this))) Completed c this.

(** [next()] on the generator whose frame is [fr]. *)
Definition resume (fuel : nat) (c : C) (this : reader) (fr : frame)
  : turn E C :=
  match fr with
  | SuspendedStart =>
      match headObject s3 c (bucket this) (key this) with
      | (Abrupt e, c') => Build_turn (Rejected e) Completed c' this
      | (Normal head, c') =>
          let this :=
            set_size (match ContentLength head with
                      | Some n => n
                      | None => 0
                      end) this in
          fetchLoop fuel c' this
      end
  | SuspendedYield data nextNewline =>
      let data :=
        substringFrom data (nextNewline + String.length lineDelimiter) in
      match scan data this with
      | Line line data nextNewline this =>
          Build_turn (Yielded line) (SuspendedYield data nextNewline) c this
      | Exit this => fetchLoop fuel c this
      | Spinning => Build_turn Pending Executing c this
      end
  | Executing => Build_turn Pending Executing c this
  | Completed => Build_turn (Returned None) Completed c this
  end.

End Prepend.

(** ** [src/s3-line-reader.ts] *)

Module Positional.

(** The object [new S3LineReader(bucket, key, s3Config, bufferSize)] builds:
    the field initialisers [byteOffset = 0], [partial = ''], [size = 0] and
    the parameter properties; the default [1024 * 128] applies when the
    argument is [undefined]. *)
Definition created (bucket key : string) (bufferSize : option Z) : reader :=
  {| bucket := bucket; key := key;
     bufferSize := match bufferSize with
                   | Some n => n
                   | None => 1024 * 128
                   end;
     byteOffset := 0; partial := ""; size := 0 |}.

(** [constructor(bucket, key, s3Config = {}, bufferSize = 1024 * 128)]
    has no [throw]: it completes with the object.  [s3Config] goes to the
    client and nowhere else. *)
Definition constructor {E : Type} (bucket key : string)
  (bufferSize : option Z) : completion E reader :=
  Normal (created bucket key bufferSize).

(** A generator object of [async *getLines(lineDelimiter)]: the argument it
    was called with and its frame. *)
Record AsyncGenerator := { lineDelimiter : string; state : frame }.

(** [getLines(lineDelimiter = '\n')]: every call makes a generator object. *)
Definition getLines (lineDelimiter : option string) : AsyncGenerator :=
  {| lineDelimiter := match lineDelimiter with
                      | Some d => d
                      | None => LF
                      end;
     state := SuspendedStart |}.

Section Run.

Context {E C : Type}.
Variable s3 : S3 E C.

(** [next()] on a generator of [getLines] whose frame is [fr]. *)
Definition next (g : AsyncGenerator) (fuel : nat) (c : C) (this : reader)
  (fr : frame) : turn E C :=
  resume s3 (lineDelimiter g) fuel c this fr.

(** [new S3LineReader(bucket, key, {}, bufferSize).getLines(lineDelimiter)],
    consumed to the end. *)
Definition readAll (fuel : nat) (c : C) (bucket key : string)
  (bufferSize : option Z) (lineDelimiter : option string)
  : list string * turn E C :=
  let this := created bucket key bufferSize in
  let g := getLines lineDelimiter in
  drain (next g) fuel c this (state g).

End Run.

End Positional.

(** ** [src/unnamed/part_000] *)

Module Options.

(** The [config] argument
    [{ s3Config?: S3ClientConfig; bufferSize?: number; lineDelimiter?: string }];
    [None] is an absent property. *)
Record config := {
  cfg_bufferSize : option Z;
  cfg_lineDelimiter : option string
}.

(** The object: the shared fields, [generator] (the address of the cached
    generator, [None] for [undefined]) and [lineDelimiter]. *)
Record S3LineReader := {
  base : reader;
  generator : option nat;
  lineDelimiter : string
}.

(** [x || y] on strings and numbers: [y] when [x] is [undefined], [''] or
    [0]. *)
Definition or_string (x : option string) (y : string) : string :=
  match x with
  | Some s => if (String.length s =? 0)%nat then y else s
  | None => y
  end.

Definition or_number (x : option Z) (y : Z) : Z :=
  match x with
  | Some n => if n =? 0 then y else n
  | None => y
  end.

Definition created (bucket key : string) (cfg : config) : S3LineReader :=
  {| base := {| bucket := bucket; key := key;
                bufferSize := or_number (cfg_bufferSize cfg) (1024 * 128);
                byteOffset := 0; partial := ""; size := 0 |};
     generator := None;
     lineDelimiter :=
       or_string (cfg_lineDelimiter cfg) LF |}.

(** [constructor(bucket, key, config = {})] has no [throw]. *)
Definition constructor {E : Type} (bucket key : string) (cfg : config)
  : completion E S3LineReader :=
  Normal (created bucket key cfg).

Section Run.

Context {E C : Type}.
Variable s3 : S3 E C.

(** The reader, the generator objects made so far (an address is a position
    in [heap]) and the service. *)
Record world := {
  this : S3LineReader;
  heap : list frame;
  service : C
}.

(** Right after [new S3LineReader(bucket, key, config)]. *)
Definition started (c : C) (bucket key : string) (cfg : config) : world :=
  {| this := created bucket key cfg; heap := []; service := c |}.

(** [getLinesGenerator()]: a call of an [async *] method makes a generator
    object whose body has not started. *)
Definition getLinesGenerator (w : world) : nat * world :=
  (List.length (heap w),
   {| this := this w; heap := (heap w ++ [SuspendedStart])%list;
      service := service w |}).

(** [if (!this.generator) this.generator = this.getLinesGenerator();
     return this.generator;] *)
Definition getLines (w : world) : nat * world :=
  match generator (this w) with
  | None =>
      let (g, w') := getLinesGenerator w in
      (g, {| this := {| base := base (this w'); generator := Some g;
                        lineDelimiter := lineDelimiter (this w') |};
             heap := heap w'; service := service w' |})
  | Some g => (g, w)
  end.

Fixpoint store (g : nat) (fr : frame) (h : list frame) : list frame :=
  match h, g with
  | [], _ => []
  | _ :: h', O => fr :: h'
  | x :: h', S g' => x :: store g' fr h'
  end.

(** [g.next()] for the generator object at address [g]; [None] when there
    is no such object. *)
Definition next (fuel : nat) (g : nat) (w : world)
  : option (settled E * world) :=
  match nth_error (heap w) g with
  | None => None
  | Some fr =>
      let t := resume s3 (lineDelimiter (this w)) fuel (service w)
                 (base (this w)) fr in
      Some (result t,
            {| this := {| base := self t; generator := generator (this w);
                          lineDelimiter := lineDelimiter (this w) |};
               heap := store g (gen t) (heap w);
               service := conn t |})
  end.

(** What a caller may do with a reader. *)
Inductive call :=
| CallGetLines
| CallNext (fuel : nat) (g : nat).

Definition perform (k : call) (w : world) : world :=
  match k with
  | CallGetLines => snd (getLines w)
  | CallNext fuel g =>
      match next fuel g w with
      | Some (_, w') => w'
      | None => w
      end
  end.

Definition performAll (ks : list call) (w : world) : world :=
  fold_left (fun w k => perform k w) ks w.

(** [for await (let line of lines)] on the generator at address [g], kept
    going to the step with [done = true]: the lines, the last step ([None]
    when [g] is no generator) and the world it leaves. *)
Fixpoint consume (fuel : nat) (g : nat) (w : world)
  : list string * option (settled E) * world :=
  match fuel with
  | O => ([], Some Pending, w)
  | S fuel' =>
      match next fuel' g w with
      | None => ([], None, w)
      | Some (Yielded line, w') =>
          let '(lines, last, w'') := consume fuel' g w' in
          (line :: lines, last, w'')
      | Some (r, w') => ([], Some r, w')
      end
  end.

(** [new S3LineReader(bucket, key, config).getLines()], consumed to the
    end. *)
Definition readAll (fuel : nat) (c : C) (bucket key : string) (cfg : config)
  : list string * option (settled E) * world :=
  let (g, w) := getLines (started c bucket key cfg) in
  consume fuel g w.

End Run.

End Options.

(** ** [src/unnamed/part_001] *)

Module Append.

(** [constructor(bucket, key, bufferSize = 1024 * 128, s3Config = {})] *)
Definition created (bucket key : string) (bufferSize : option Z) : reader :=
  {| bucket := bucket; key := key;
     bufferSize := match bufferSize with
                   | Some n => n
                   | None => 1024 * 128
                   end;
     byteOffset := 0; partial := ""; size := 0 |}.

Definition constructor {E : Type} (bucket key : string)
  (bufferSize : option Z) : completion E reader :=
  Normal (created bucket key bufferSize).

Section Run.

Context {E C : Type}.
Variable s3 : S3 E C.
Variable lineDelimiter : string.

(** [while (data.length) { ... }] up to its next [yield]; [continue] starts
    another pass. *)
Fixpoint scan (fuel : nat) (data : string) (this : reader) : scanned :=
  match fuel with
  | O => Spinning
  | S fuel' =>
      if (String.length data =? 0)%nat then Exit this
      else
        match indexOf data lineDelimiter with
        | None =>
            let this := set_partial (partial this ++ data) this in
            match indexOf (partial this) lineDelimiter with
            | Some _ =>
                let data := partial this in
                let this := set_partial "" this in
                scan fuel' data this
            | None => Exit this
            end
        | Some nextNewline =>
            let nextLine := substring data 0 nextNewline in
            if (String.length (partial this) =? 0)%nat
            then Line nextLine data nextNewline this
            else Line (partial this ++ nextLine) data nextNewline
                   (set_partial "" this)
        end
  end.

Fixpoint fetchLoop (fuel : nat) (c : C) (this : reader) : turn E C :=
  if byteOffset this <? size this then
    match fuel with
    | O => Build_turn Pending Executing c this
    | S fuel' =>
        let byteOffsetTop := byteOffset this + bufferSize this in
        let byteOffsetTop :=
          if byteOffsetTop >? size this then size this else byteOffsetTop in
        match send s3 c {| Bucket := bucket this; Key := key this;
                           Range := (byteOffset this, byteOffsetTop) |} with
        | (Abrupt e, c') => Build_turn (Rejected e) Completed c' this
        | (Normal file, c') =>
            let this := set_byteOffset (byteOffsetTop + 1) this in
            match Body file with
            | None =>
                Build_turn (Returned (Some (partial this))) Completed c' this
            | Some body =>
                match readStream body with
                | Abrupt e => Build_turn (Rejected e) Completed c' this
                | Normal data =>
                    match scan (S fuel') data this with
                    | Line line data nextNewline this =>
                        Build_turn (Yielded line)
                          (SuspendedYield data nextNewline) c' this
                    | Exit this => fetchLoop fuel' c' this
                    | Spinning => Build_turn Pending Executing c' this
                    end
                end
            end
        end
    end
  else Build_turn (Returned (Some (partial this))) Completed c this.

Definition next (fuel : nat) (c : C) (this : reader) (fr : frame)
  : turn E C :=
  match fr with
  | SuspendedStart =>
      match headObject s3 c (bucket this) (key this) with
      | (Abrupt e, c') => Build_turn (Rejected e) Completed c' this
      | (Normal head, c') =>
          let this :=
            set_size (match ContentLength head with
                      | Some n => n
                      | None => 0
                      end) this in
          fetchLoop fuel c' this
      end
  | SuspendedYield data nextNewline =>
      let data :=
        substringFrom data (nextNewline + String.length lineDelimiter) in
      match scan (S fuel) data this with
      | Line line data nextNewline this =>
          Build_turn (Yielded line) (SuspendedYield data nextNewline) c this
      | Exit this => fetchLoop fuel c this
      | Spinning => Build_turn Pending Executing c this
      end
  | Executing => Build_turn Pending Executing c this
  | Completed => Build_turn (Returned None) Completed c this
  end.

End Run.

(** [new S3LineReader(bucket, key, bufferSize).getLines(lineDelimiter)],
    consumed to the end. *)
Definition readAll {E C : Type} (s3 : S3 E C) (fuel : nat) (c : C)
  (bucket key : string) (bufferSize : option Z)
  (lineDelimiter : option string) : list string * turn E C :=
  let d := match lineDelimiter with
           | Some d => d
           | None => LF
           end in
  drain (next s3 d) fuel c (created bucket key bufferSize) SuspendedStart.

End Append.

(** ** The service of [src/s3-line-reader.spec.ts] *)

Module Mock.

(** What [jest.fn()] records of a call. *)
Inductive request :=
| HeadObjectRequest (bucket key : string)
| SendRequest (command : GetObjectCommand).

(** [data.subarray(start, end)] for [0 <= start]: the bytes from [start] up
    to, not including, [end], clipped to the length of [data]. *)
Definition subarray (data : string) (start end_ : Z) : string :=
  take (Z.to_nat end_ - Z.to_nat start) (drop (Z.to_nat start) data).

(** [Readable.from(bytes)]: one ['data'] event, then ['end']. *)
Definition from {E : Type} (bytes : string) : Readable E :=
  {| chunks := [bytes]; failure := None |}.

(** [headObject = jest.fn().mockResolvedValue({ ContentLength: data.length })]
    and [send = getObjectMock(data)]. *)
Definition S3 {E : Type} (data : string) : Client.S3 E (list request) :=
  {| headObject c bucket key :=
       (Normal {| ContentLength := Some (Z.of_nat (String.length data)) |},
        (c ++ [HeadObjectRequest bucket key])%list);
     send c command :=
       let (start, end_) := Range command in
       (Normal {| Body := Some (from (subarray data start (end_ + 1))) |},
        (c ++ [SendRequest command])%list) |}.

(** How many range requests the service has seen. *)
Fixpoint sends (c : list request) : nat :=
  match c with
  | [] => 0
  | SendRequest _ :: c' => S (sends c')
  | HeadObjectRequest _ _ :: c' => sends c'
  end.

(** The same service, except that it rejects with [e] the range request
    that comes after [n] others, and its size query when [n] is [None]. *)
Definition failing {E : Type} (data : string) (n : option nat) (e : E)
  : Client.S3 E (list request) :=
  {| headObject c bucket key :=
       match n with
       | None => (Abrupt e, (c ++ [HeadObjectRequest bucket key])%list)
       | Some _ => headObject (S3 data) c bucket key
       end;
     send c command :=
       match n with
       | Some n =>
           if (sends c =? n)%nat then (Abrupt e, (c ++ [SendRequest command])%list)
           else send (S3 data) c command
       | None => send (S3 data) c command
       end |}.

End Mock.
(** ** Vocabulary of the statements *)

(** [Splits d s lines last]: scanning [s] from the left for [d], matches
    never overlapping, cuts it into [lines] and the unterminated rest
    [last]. *)
Inductive Splits (d : string) : string -> list string -> string -> Prop :=
| Splits_last (s : string) :
    indexOf s d = None -> Splits d s [] s
| Splits_line (s : string) (p : nat) (lines : list string) (last : string) :
    indexOf s d = Some p ->
    Splits d (drop (p + String.length d) s) lines last ->
    Splits d s (take p s :: lines) last.

(** Every record followed by the delimiter. *)
Fixpoint terminated (d : string) (lines : list string) : string :=
  match lines with
  | [] => ""
  | line :: lines' => line ++ d ++ terminated d lines'
  end.

(** The bytes of [data] from the cursor on. *)
Definition unfetched (data : string) (this : reader) : string :=
  drop (Z.to_nat (byteOffset this)) data.

(** Between two fetches of an object [data]: the size is known, the cursor
    is not negative and the carry holds no delimiter. *)
Definition between (data d : string) (this : reader) : Prop :=
  size this = Z.of_nat (String.length data) /\
  0 <= byteOffset this /\
  0 < bufferSize this /\
  indexOf (partial this) d = None.

(** A call of [next()] that had the text [P] before it (the unscanned part
    of the buffer, then the bytes not fetched yet) either yields the first
    record of [P] and keeps the rest, or returns [P], which holds no
    delimiter.  [B] bounds the range requests made and still to make. *)
Definition advances {E : Type} (data d : string) (P : string) (B : nat)
  (t : turn E (list Mock.request)) : Prop :=
  between data d (self t) /\
  (Mock.sends (conn t) + String.length (unfetched data (self t)) <= B)%nat /\
  ((exists buffer p,
       result t = Yielded (take p buffer) /\
       gen t = SuspendedYield buffer p /\
       indexOf buffer d = Some p /\
       partial (self t) = "" /\
       buffer ++ unfetched data (self t) = P)
   \/
   (result t = Returned (Some P) /\
    gen t = Completed /\
    indexOf P d = None /\
    size (self t) <= byteOffset (self t))).

(** What holds of the reader and its generator at any time of a pass over
    [data]: before the first [next()] the cursor and the size are 0; after
    it the size is known and the cursor is at most one past it, and not
    before it once the generator has returned. *)
Definition cursor_ok {E C : Type} (data : string) (bs : Z) (t : turn E C)
  : Prop :=
  bufferSize (self t) = bs /\
  ((gen t = SuspendedStart /\ result t = Pending /\
    byteOffset (self t) = 0 /\ size (self t) = 0)
   \/
   (gen t <> SuspendedStart /\
    size (self t) = Z.of_nat (String.length data) /\
    0 <= byteOffset (self t) <= size (self t) + 1 /\
    (forall last, result t = Returned (Some last) ->
                  size (self t) <= byteOffset (self t)))).

(** What comes of a step against the failing service: the same as against
    the mocked one, or the rejection of the range request that came after
    [n] others. *)
Definition same_or_rejected {E : Type} (n : nat) (e : E)
  (tb tg : turn E (list Mock.request)) : Prop :=
  tb = tg \/
  (result tb = Rejected e /\ gen tb = Completed /\
   Mock.sends (conn tb) = S n).

(** The same for the loop of [src/unnamed/part_001], counting characters:
    [T] bounds the carry, the buffer and the bytes not fetched yet. *)
Definition progresses {E : Type} (data d : string) (T B : nat)
  (t : turn E (list Mock.request)) : Prop :=
  (size (self t) = Z.of_nat (String.length data) /\
   0 <= byteOffset (self t) /\ 0 < bufferSize (self t)) /\
  (Mock.sends (conn t) + String.length (unfetched data (self t)) <= B)%nat /\
  ((exists line buffer p,
       result t = Yielded line /\
       gen t = SuspendedYield buffer p /\
       indexOf buffer d = Some p /\
       (String.length (partial (self t)) + String.length buffer
        + String.length (unfetched data (self t)) <= T)%nat)
   \/
   (exists last, result t = Returned (Some last) /\ gen t = Completed)).

(** The consumer's loop after a call of [next()] settled to [t]. *)
Definition continue {E C : Type} (next : nat -> C -> reader -> frame -> turn E C)
  (fuel : nat) (t : turn E C) : list string * turn E C :=
  match result t with
  | Yielded line =>
      let (lines, last) := drain next fuel (conn t) (self t) (gen t) in
      (line :: lines, last)
  | _ => ([], t)
  end.

(** The ranges of the range requests the service has seen, in order. *)
Fixpoint ranges (c : list Mock.request) : list (Z * Z) :=
  match c with
  | [] => []
  | Mock.SendRequest command :: c' => Range command :: ranges c'
  | Mock.HeadObjectRequest _ _ :: c' => ranges c'
  end.

(** [tiles bs sz from rs to]: the ranges [rs] follow one another from
    [from] with no gap and no overlap, the next byte after them is [to],
    each starts below [sz], ends at [sz] at most and spans at most
    [bs + 1] bytes. *)
Fixpoint tiles (bs sz from : Z) (rs : list (Z * Z)) (to : Z) : Prop :=
  match rs with
  | [] => from = to
  | (first, last) :: rs' =>
      first = from /\ first < sz /\ first <= last /\ last <= sz /\
      last - first <= bs /\ tiles bs sz (last + 1) rs' to
  end.

(** A carry without delimiter never brings a match forward: the first
    delimiter of [a ++ b] is the first delimiter of [b]. *)
Definition carry_safe (d : string) : Prop :=
  forall (a b : string) (p : nat),
    indexOf a d = None -> indexOf b d = Some p ->
    indexOf (a ++ b) d = Some (String.length a + p)%nat.

(** For the loop of [src/unnamed/part_001]: when the chunk is scanned
    before the carry is joined to it, the records are the records of the
    split as long as the carry cannot bring a match forward, or there is
    nothing left to fetch, or nothing has been fetched and the first
    range takes the whole object. *)
Definition settled_safe (data d : string) (this : reader) : Prop :=
  carry_safe d \/ unfetched data this = "".

Definition ready_safe (data d : string) (this : reader) : Prop :=
  carry_safe d \/ unfetched data this = "" \/
  (partial this = "" /\ byteOffset this = 0 /\
   size this <= bufferSize this + 1).

(** A call of [next()] of [src/unnamed/part_001] that had the text [P]
    before it yields a record that, with the delimiter and the text kept,
    makes up [P], or returns [P]; when [flag] holds the record ends at the
    first delimiter of [P]. *)
Definition appends {E : Type} (data d : string) (flag : Prop) (P : string)
  (t : turn E (list Mock.request)) : Prop :=
  between data d (self t) /\
  (flag -> settled_safe data d (self t)) /\
  ((exists line buffer p,
       result t = Yielded line /\
       gen t = SuspendedYield buffer p /\
       indexOf buffer d = Some p /\
       partial (self t) = "" /\
       P = line ++ d ++ drop (p + String.length d) buffer
             ++ unfetched data (self t) /\
       (flag -> indexOf P d = Some (String.length line)))
   \/
   (result t = Returned (Some P) /\
    gen t = Completed /\
    indexOf P d = None)).

(** What is held in memory at any time of a pass with the loop of
    [src/s3-line-reader.ts]: the carry holds no delimiter, and at a
    [yield] the buffer after the record and its delimiter is at most
    [bufferSize] long. *)
Definition bounded {E C : Type} (data d : string) (bs : Z) (t : turn E C)
  : Prop :=
  bufferSize (self t) = bs /\
  match gen t with
  | SuspendedStart =>
      byteOffset (self t) = 0 /\ partial (self t) = ""
  | SuspendedYield buffer p =>
      between data d (self t) /\
      indexOf buffer d = Some p /\
      Z.of_nat (String.length (drop (p + String.length d) buffer)) <= bs
  | Executing | Completed => between data d (self t)
  end.

(** ** Facts about the string primitives *)

Section StringFacts.

Lemma append_empty_r (s : string) : s ++ "" = s.
Proof. induction s as [|c s IH]; simpl; [reflexivity | now rewrite IH]. Qed.

Lemma append_assoc (a b c : string) : (a ++ b) ++ c = a ++ (b ++ c).
Proof. induction a as [|x a IH]; simpl; [reflexivity | now rewrite IH]. Qed.

Lemma length_append (a b : string) :
  String.length (a ++ b) = (String.length a + String.length b)%nat.
Proof. induction a as [|x a IH]; simpl; [reflexivity | now rewrite IH]. Qed.

Lemma length_zero (s : string) : String.length s = 0%nat -> s = "".
Proof. destruct s; simpl; [reflexivity | discriminate]. Qed.

Lemma take_drop (n : nat) (s : string) : take n s ++ drop n s = s.
Proof.
  revert s; induction n as [|n IH]; intros [|c s]; simpl; try reflexivity.
  now rewrite IH.
Qed.

Lemma drop_all (n : nat) (s : string) :
  (String.length s <= n)%nat -> drop n s = "".
Proof.
  revert s; induction n as [|n IH]; intros [|c s]; simpl; intros H;
    try reflexivity; try lia.
  apply IH; lia.
Qed.

Lemma length_take (n : nat) (s : string) :
  String.length (take n s) = Nat.min n (String.length s).
Proof.
  revert s; induction n as [|n IH]; intros [|c s]; simpl; try reflexivity.
  now rewrite IH.
Qed.

Lemma length_drop (n : nat) (s : string) :
  String.length (drop n s) = (String.length s - n)%nat.
Proof.
  revert s; induction n as [|n IH]; intros [|c s]; simpl; try reflexivity.
  apply IH.
Qed.

Lemma take_append (n : nat) (a b : string) :
  (n <= String.length a)%nat -> take n (a ++ b) = take n a.
Proof.
  revert a; induction n as [|n IH]; intros a H.
  - now destruct a, b.
  - destruct a as [|c a]; simpl in *; [lia|].
    rewrite IH; [reflexivity | lia].
Qed.

Lemma drop_append (n : nat) (a b : string) :
  (n <= String.length a)%nat -> drop n (a ++ b) = drop n a ++ b.
Proof.
  revert a; induction n as [|n IH]; intros [|c a]; simpl; intros H;
    try reflexivity; try lia.
  apply IH; lia.
Qed.

Lemma drop_length_append (a b : string) : drop (String.length a) (a ++ b) = b.
Proof. induction a as [|c a IH]; simpl; [now destruct b | exact IH]. Qed.

Lemma take_length_append (a b : string) : take (String.length a) (a ++ b) = a.
Proof. induction a as [|c a IH]; simpl; [now destruct b | now rewrite IH]. Qed.

Lemma drop_drop (n m : nat) (s : string) : drop n (drop m s) = drop (m + n) s.
Proof.
  revert s; induction m as [|m IH]; intros s; simpl; [reflexivity|].
  destruct s as [|c s]; [now destruct n | apply IH].
Qed.

Lemma substring_0 (s : string) (p : nat) : substring s 0 p = take p s.
Proof.
  unfold substring. rewrite Nat.min_0_l, Nat.max_0_l, Nat.sub_0_r.
  reflexivity.
Qed.

Lemma startsWith_spec (s d : string) :
  startsWith s d = true <-> exists t, s = d ++ t.
Proof.
  revert s; induction d as [|c d IH]; intros s; simpl.
  - split; [intros _; now exists s | now destruct s].
  - destruct s as [|c' s]; simpl.
    + split; [discriminate | intros [t H]; discriminate].
    + rewrite andb_true_iff, Ascii.eqb_eq, IH. split.
      * intros [-> [t ->]]. now exists t.
      * intros [t H]. injection H as -> ->. split; [reflexivity | now exists t].
Qed.

Lemma startsWith_length (s d : string) :
  startsWith s d = true -> (String.length d <= String.length s)%nat.
Proof.
  intros H. apply startsWith_spec in H as [t ->]. rewrite length_append. lia.
Qed.

(** A window that lies inside [s] is not affected by what follows [s]. *)
Lemma startsWith_window (s t d : string) :
  (String.length d <= String.length s)%nat ->
  startsWith (s ++ t) d = startsWith s d.
Proof.
  revert s; induction d as [|c d IH]; intros s H.
  - now destruct s, t.
  - destruct s as [|c' s]; simpl in *; [lia|].
    rewrite IH; [reflexivity | lia].
Qed.

Lemma indexOf_empty_delimiter (s : string) : indexOf s "" = Some 0%nat.
Proof. destruct s; reflexivity. Qed.

Lemma indexOf_empty_data (d : string) : d <> "" -> indexOf "" d = None.
Proof. destruct d; [congruence | reflexivity]. Qed.

Lemma indexOf_unfold (s d : string) :
  indexOf s d =
  if startsWith s d then Some 0%nat
  else match s with
       | EmptyString => None
       | String _ s' => option_map S (indexOf s' d)
       end.
Proof. destruct s; reflexivity. Qed.

Lemma indexOf_bound (s d : string) (p : nat) :
  indexOf s d = Some p -> (p + String.length d <= String.length s)%nat.
Proof.
  revert p; induction s as [|c s IH]; intros p; rewrite indexOf_unfold;
    destruct (startsWith _ d) eqn:Hs; try discriminate.
  - intros [= <-]. now apply startsWith_length in Hs.
  - intros [= <-]. now apply startsWith_length in Hs.
  - destruct (indexOf s d) as [q|] eqn:Hq; simpl; [|discriminate].
    intros [= <-]. specialize (IH q eq_refl). lia.
Qed.

(** The text before the match, the delimiter and the text after it make up
    the scanned string. *)
Lemma indexOf_split (s d : string) (p : nat) :
  indexOf s d = Some p ->
  s = take p s ++ d ++ drop (p + String.length d) s.
Proof.
  revert p; induction s as [|c s IH]; intros p; rewrite indexOf_unfold;
    destruct (startsWith _ d) eqn:Hs; try discriminate.
  - intros [= <-]. apply startsWith_spec in Hs as [t Ht].
    destruct d; [reflexivity | discriminate].
  - intros [= <-]. apply startsWith_spec in Hs as [t Ht].
    rewrite Ht.
    change (d ++ t = d ++ drop (String.length d) (d ++ t)).
    now rewrite drop_length_append.
  - destruct (indexOf s d) as [q|] eqn:Hq; simpl; [|discriminate].
    intros [= <-]. simpl. f_equal. now apply IH.
Qed.

(** The leftmost match in a prefix is the leftmost match in the whole
    string: appending text never moves it. *)
Lemma indexOf_append (s t d : string) (p : nat) :
  indexOf s d = Some p -> indexOf (s ++ t) d = Some p.
Proof.
  revert p; induction s as [|c s IH]; intros p H.
  - rewrite indexOf_unfold in H.
    destruct (startsWith "" d) eqn:Hs; [|discriminate].
    injection H as <-. apply startsWith_spec in Hs as [u Hu].
    destruct d; [|discriminate]. apply indexOf_empty_delimiter.
  - pose proof (indexOf_bound _ _ _ H) as Hb.
    rewrite indexOf_unfold in H. rewrite indexOf_unfold.
    rewrite startsWith_window by (simpl in *; lia).
    destruct (startsWith (String c s) d); [exact H|].
    destruct (indexOf s d) as [q|] eqn:Hq; simpl in H; [|discriminate].
    injection H as <-. simpl. now rewrite (IH q eq_refl).
Qed.

Lemma indexOf_shrinks (s d : string) (p : nat) :
  d <> "" -> indexOf s d = Some p ->
  (String.length (drop (p + String.length d) s) < String.length s)%nat.
Proof.
  intros Hd H. apply indexOf_bound in H. rewrite length_drop.
  destruct d; [congruence | simpl in *; lia].
Qed.

End StringFacts.

(** ** The split of a string *)

Section SplitFacts.

Variable d : string.

Lemma Splits_functional (s : string) (l1 l2 : list string) (t1 t2 : string) :
  Splits d s l1 t1 -> Splits d s l2 t2 -> l1 = l2 /\ t1 = t2.
Proof.
  intros H1; revert l2 t2.
  induction H1 as [s Hs | s p lines last Hp _ IH]; intros l2 t2 H2;
    inversion H2; subst; try congruence.
  - split; reflexivity.
  - assert (p0 = p) by congruence; subst p0.
    destruct (IH _ _ H0) as [-> ->]. split; reflexivity.
Qed.






(** A record found in a prefix of the text is a record of the text. *)
Lemma Splits_prepend (a b : string) (p : nat) (lines : list string)
  (last : string) :
  indexOf a d = Some p ->
  Splits d (drop (p + String.length d) a ++ b) lines last ->
  Splits d (a ++ b) (take p a :: lines) last.
Proof.
  intros Hp H. pose proof (indexOf_bound _ _ _ Hp) as Hb.
  rewrite <- (take_append p a b) by lia.
  apply Splits_line; [now apply indexOf_append|].
  rewrite drop_append by lia. exact H.
Qed.


End SplitFacts.

(** ** A pass over the object of the mocked service *)

Section MockRun.

Context {E : Type}.
Variable data : string.
Variable d : string.
Hypothesis delimiter_not_empty : d <> "".

Let s3 : Client.S3 E (list Mock.request) := Mock.S3 data.

Lemma sends_app (c : list Mock.request) (r : Mock.request) :
  Mock.sends (c ++ [r])%list =
  (Mock.sends c + match r with Mock.SendRequest _ => 1 | _ => 0 end)%nat.
Proof.
  induction c as [|x c IH]; simpl.
  - destruct r; reflexivity.
  - destruct x; rewrite IH; reflexivity.
Qed.

(** The range [first .. last] of one request, with [last] clamped to the
    size, and what it leaves to fetch. *)
Lemma one_fetch (first bs : Z) :
  0 <= first < Z.of_nat (String.length data) -> 0 < bs ->
  let top := first + bs in
  let last := if top >? Z.of_nat (String.length data)
              then Z.of_nat (String.length data) else top in
  (Mock.subarray data first (last + 1) ++ drop (Z.to_nat (last + 1)) data
   = drop (Z.to_nat first) data) /\
  (String.length (drop (Z.to_nat (last + 1)) data)
   < String.length (drop (Z.to_nat first) data))%nat /\
  first < last + 1.
Proof.
  intros Hf Hb top last.
  assert (Hl : first < last + 1).
  { subst last top. destruct (_ >? _) eqn:Hc; lia. }
  split; [|split; [|exact Hl]].
  - unfold Mock.subarray.
    replace (Z.to_nat (last + 1))
      with (Z.to_nat first + (Z.to_nat (last + 1) - Z.to_nat first))%nat
      at 2 by lia.
    rewrite <- drop_drop. apply take_drop.
  - rewrite !length_drop. lia.
Qed.

Lemma fetchLoop_more (fuel : nat) (c : list Mock.request) (this : reader) :
  (byteOffset this <? size this) = true ->
  fetchLoop s3 d (S fuel) c this =
  let top := byteOffset this + bufferSize this in
  let last := if top >? size this then size this else top in
  let command := {| Bucket := bucket this; Key := key this;
                    Range := (byteOffset this, last) |} in
  let this1 := set_byteOffset (last + 1) this in
  let buffer :=
    partial this ++ Mock.subarray data (byteOffset this) (last + 1) in
  match scan d buffer (set_partial "" this1) with
  | Line line buffer p this2 =>
      Build_turn (Yielded line) (SuspendedYield buffer p)
        (c ++ [Mock.SendRequest command])%list this2
  | Exit this2 =>
      fetchLoop s3 d fuel (c ++ [Mock.SendRequest command])%list this2
  | Spinning => Build_turn Pending Executing
                  (c ++ [Mock.SendRequest command])%list
                  (set_partial "" this1)
  end.
Proof.
  intros H. cbn [fetchLoop]. rewrite H. reflexivity.
Qed.

Lemma fetchLoop_done (fuel : nat) (c : list Mock.request) (this : reader) :
  (byteOffset this <? size this) = false ->
  fetchLoop s3 d fuel c this =
  Build_turn (Returned (Some (partial this))) Completed c this.
Proof.
  intros H. destruct fuel; cbn [fetchLoop]; rewrite H; reflexivity.
Qed.

Lemma advances_le (P : string) (B B' : nat) (t : turn E (list Mock.request)) :
  advances data d P B t -> (B <= B')%nat -> advances data d P B' t.
Proof.
  intros (Hb & Hs & H) Hle. split; [exact Hb|]. split; [lia | exact H].
Qed.

Lemma indexOf_empty_carry : indexOf "" d = None.
Proof. now apply indexOf_empty_data. Qed.

(** The fetch loop, entered between two fetches. *)
Lemma fetchLoop_advances (fuel : nat) :
  forall (c : list Mock.request) (this : reader),
    between data d this ->
    (String.length (unfetched data this) < fuel)%nat ->
    advances data d (partial this ++ unfetched data this)
      (Mock.sends c + String.length (unfetched data this))
      (fetchLoop s3 d fuel c this).
Proof.
  induction fuel as [|fuel IH]; intros c this Hb Hf; [lia|].
  destruct (byteOffset this <? size this) eqn:Hlt.
  - rewrite fetchLoop_more by assumption. cbv zeta.
    destruct Hb as (Hsz & Hoff & Hbs & Hpar).
    apply Z.ltb_lt in Hlt.
    assert (Hone := one_fetch (byteOffset this) (bufferSize this)).
    rewrite <- Hsz in Hone. specialize (Hone (conj Hoff Hlt) Hbs).
    cbv zeta in Hone.
    set (last := if byteOffset this + bufferSize this >? size this
                 then size this
                 else byteOffset this + bufferSize this) in *.
    destruct Hone as (Hcat & Hlen & Hadv).
    set (chunk := Mock.subarray data (byteOffset this) (last + 1)) in *.
    set (command := {| Bucket := bucket this; Key := key this;
                       Range := (byteOffset this, last) |}).
    set (this1 := set_partial "" (set_byteOffset (last + 1) this)).
    assert (Hun : unfetched data this1 = drop (Z.to_nat (last + 1)) data)
      by reflexivity.
    assert (Hb1 : forall s, indexOf s d = None ->
                            between data d (set_partial s this1)).
    { intros s Hs. repeat split; simpl; try assumption; lia. }
    assert (Hu : unfetched data this = chunk ++ unfetched data this1)
      by (rewrite Hun; symmetry; exact Hcat).
    assert (Hchunk : (0 < String.length chunk)%nat).
    { rewrite <- Hun in Hlen. fold (unfetched data this) in Hlen.
      rewrite Hu, length_append in Hlen. lia. }
    rewrite Hu, length_append in *. clear Hcat Hlen.
    assert (Hs : (Mock.sends (c ++ [Mock.SendRequest command])
                  + String.length (unfetched data this1)
                  <= Mock.sends c
                     + (String.length chunk
                        + String.length (unfetched data this1)))%nat)
      by (rewrite sends_app; lia).
    unfold scan. destruct (String.length (partial this ++ chunk) =? 0)%nat
      eqn:Hempty.
    + apply Nat.eqb_eq, length_zero in Hempty. rewrite <- append_assoc, Hempty.
      eapply advances_le; [|exact Hs].
      apply (IH _ this1); [apply (Hb1 "" indexOf_empty_carry) | lia].
    + destruct (indexOf (partial this ++ chunk) d) as [p|] eqn:Hp.
      * split; [apply (Hb1 "" indexOf_empty_carry)|]. split; [exact Hs|].
        left. exists (partial this ++ chunk), p.
        rewrite substring_0. repeat split; try assumption.
        now rewrite append_assoc.
      * eapply advances_le; [|exact Hs]. rewrite <- append_assoc.
        apply (IH _ (set_partial (partial this ++ chunk) this1));
          [now apply Hb1|].
        change (unfetched data (set_partial (partial this ++ chunk) this1))
          with (unfetched data this1). lia.
  - rewrite fetchLoop_done by assumption.
    destruct Hb as (Hsz & Hoff & Hbs & Hpar). apply Z.ltb_ge in Hlt.
    assert (Hu : unfetched data this = "").
    { unfold unfetched. apply drop_all. lia. }
    rewrite Hu, append_empty_r. split; [now repeat split|].
    split; [simpl; rewrite Hu; simpl; lia|].
    right. repeat split; assumption.
Qed.

(** [next()] on a generator suspended at the [yield]. *)
Lemma resume_advances (fuel : nat) (c : list Mock.request) (this : reader)
  (buffer : string) (p : nat) :
  between data d this ->
  partial this = "" ->
  (String.length (unfetched data this) < fuel)%nat ->
  advances data d
    (drop (p + String.length d) buffer ++ unfetched data this)
    (Mock.sends c + String.length (unfetched data this))
    (resume s3 d fuel c this (SuspendedYield buffer p)).
Proof.
  intros Hb Hpar Hf. unfold resume, substringFrom.
  set (rest := drop (p + String.length d) buffer).
  unfold scan. destruct (String.length rest =? 0)%nat eqn:Hempty.
  - apply Nat.eqb_eq, length_zero in Hempty. rewrite Hempty, <- Hpar.
    now apply fetchLoop_advances.
  - destruct (indexOf rest d) as [q|] eqn:Hq.
    + split; [exact Hb|]. split; [simpl; lia|].
      left. exists rest, q. rewrite substring_0. now repeat split.
    + destruct Hb as (Hsz & Hoff & Hbs & _).
      apply (fetchLoop_advances fuel c (set_partial rest this));
        [now repeat split | exact Hf].
Qed.

(** The first [next()]: the size query, then the fetch loop. *)
Lemma start_advances (fuel : nat) (c : list Mock.request) (this : reader) :
  byteOffset this = 0 -> partial this = "" -> 0 < bufferSize this ->
  (String.length data < fuel)%nat ->
  advances data d data (Mock.sends c + String.length data)
    (resume s3 d fuel c this SuspendedStart).
Proof.
  intros Hoff Hpar Hbs Hf. cbn [resume s3 Mock.S3 headObject ContentLength].
  set (this1 := set_size (Z.of_nat (String.length data)) this).
  assert (Hu : unfetched data this1 = data)
    by (unfold unfetched; simpl; now rewrite Hoff).
  assert (Hb : between data d this1).
  { repeat split; simpl; try lia; try assumption.
    rewrite Hpar. apply indexOf_empty_carry. }
  pose proof (fetchLoop_advances fuel
                (c ++ [Mock.HeadObjectRequest (bucket this) (key this)])
                this1 Hb) as H.
  rewrite Hu, sends_app, Nat.add_0_r in H.
  change (partial this1) with (partial this) in H. rewrite Hpar in H.
  now apply H.
Qed.

(** The consumer keeps calling [next()] until the generator returns. *)
Lemma continue_advances (fuel : nat) :
  forall (P : string) (B : nat) (t : turn E (list Mock.request)),
    advances data d P B t ->
    (String.length P < fuel)%nat ->
    exists lines last t',
      continue (resume s3 d) fuel t = (lines, t') /\
      result t' = Returned (Some last) /\
      gen t' = Completed /\
      Splits d P lines last /\
      between data d (self t') /\
      (Mock.sends (conn t') <= B)%nat /\
      size (self t') <= byteOffset (self t').
Proof.
  induction fuel as [|fuel IH]; intros P B t (Hb & Hs & H) Hf; [lia|].
  destruct H as [(buffer & p & Hr & Hg & Hp & Hpar & HP)
                | (Hr & Hg & Hfree & Hend)].
  - unfold continue. rewrite Hr, Hg. cbn [drain].
    fold (continue (resume s3 d) fuel
            (resume s3 d fuel (conn t) (self t) (SuspendedYield buffer p))).
    pose proof (indexOf_shrinks _ _ _ delimiter_not_empty Hp) as Hshr.
    pose proof (indexOf_bound _ _ _ Hp) as Hbd.
    assert (HlP : String.length P
                  = (String.length buffer
                     + String.length (unfetched data (self t)))%nat)
      by (now rewrite <- HP, length_append).
    destruct (IH (drop (p + String.length d) buffer
                  ++ unfetched data (self t)) B
                (resume s3 d fuel (conn t) (self t) (SuspendedYield buffer p)))
      as (lines & last & t' & Hc & Hr' & Hg' & Hsp & Hb' & Hs' & Hend').
    + eapply advances_le; [apply resume_advances; try assumption; lia | lia].
    + rewrite length_append. lia.
    + rewrite Hc. exists (take p buffer :: lines), last, t'.
      repeat split; try assumption; try apply Hb'.
      rewrite <- HP. now apply Splits_prepend.
  - unfold continue. rewrite Hr. exists [], P, t.
    repeat split; try assumption; try apply Hb.
    + now apply Splits_last.
    + lia.
Qed.

(** A whole pass over the object: the records and the returned value are
    the split of the object, whatever the chunk size. *)
Lemma readAll_splits (fuel : nat) (c : list Mock.request)
  (bucket key : string) (bs : Z) :
  0 < bs ->
  (String.length data + 2 <= fuel)%nat ->
  exists lines last t,
    Positional.readAll s3 fuel c bucket key (Some bs) (Some d) = (lines, t) /\
    result t = Returned (Some last) /\
    gen t = Completed /\
    Splits d data lines last /\
    between data d (self t) /\
    (Mock.sends (conn t) <= Mock.sends c + String.length data)%nat /\
    size (self t) <= byteOffset (self t).
Proof.
  intros Hbs Hf. destruct fuel as [|fuel]; [lia|].
  unfold Positional.readAll. cbn [Positional.getLines Positional.state drain].
  apply (continue_advances fuel data); [|lia].
  apply start_advances; simpl; try reflexivity; try assumption; lia.
Qed.

End MockRun.

(** ** The tests of [src/s3-line-reader.spec.ts] and the example of the
       README *)

Example two_lines_default_buffer :
  let run := Positional.readAll
               (Mock.S3 (E := unit)
                  ("This is the first line" ++ LF ++ "This is the second line"))
               3 [] "some-bucket" "some-key" None None in
  fst run = ["This is the first line"] /\
  result (snd run) = Returned (Some "This is the second line").
Proof. vm_compute. split; reflexivity. Qed.

Example two_lines_buffer_of_8 :
  let run := Append.readAll
               (Mock.S3 (E := unit)
                  ("This is the first line" ++ LF ++ "This is the second line"))
               9 [] "some-bucket" "some-key" (Some 8) None in
  fst run = ["This is the first line"] /\
  result (snd run) = Returned (Some "This is the second line").
Proof. vm_compute. split; reflexivity. Qed.

Example empty_lines_buffer_of_8 :
  let data := LF ++ LF ++ "Not Empty line" ++ LF ++ "short line" ++ LF ++ LF in
  let prepended := Positional.readAll (Mock.S3 (E := unit) data) 9 []
                     "some-bucket" "some-key" (Some 8) None in
  let appended := Append.readAll (Mock.S3 (E := unit) data) 9 []
                    "some-bucket" "some-key" (Some 8) None in
  fst prepended = [""; ""; "Not Empty line"; "short line"; ""] /\
  result (snd prepended) = Returned (Some "") /\
  fst appended = fst prepended /\
  result (snd appended) = result (snd prepended).
Proof. vm_compute. repeat split. Qed.

Example spoons :
  let run := Positional.readAll
               (Mock.S3 (E := unit) "abcspoons123spoons xyz spoons 456")
               6 [] "some-s3-bucket" "hugefile.txt" None (Some "spoons") in
  fst run = ["abc"; "123"; " xyz "] /\
  result (snd run) = Returned (Some " 456").
Proof. vm_compute. split; reflexivity. Qed.

(** ** Record splitting is lossless and does not depend on the chunk size *)

Lemma Splits_count (d s : string) (lines : list string) (last : string) :
  d <> "" -> Splits d s lines last ->
  (List.length lines + String.length last <= String.length s)%nat.
Proof.
  intros Hd H. induction H as [s Hs | s p lines last Hp _ IH]; simpl; [lia|].
  pose proof (indexOf_shrinks _ _ _ Hd Hp). lia.
Qed.



(** With the loop of [src/s3-line-reader.ts] and [src/unnamed/part_000],
    for a fixed object content and a fixed non-empty delimiter, two passes
    with any two positive chunk sizes yield the same records in the same
    order and return the same value. *)
Theorem getLines_chunk_size_independent {E : Type} (data d : string)
  (bs1 bs2 : Z) (fuel1 fuel2 : nat) (c1 c2 : list Mock.request)
  (bucket key : string) :
  d <> "" -> 0 < bs1 -> 0 < bs2 ->
  (String.length data + 2 <= fuel1)%nat ->
  (String.length data + 2 <= fuel2)%nat ->
  let run1 := Positional.readAll (Mock.S3 (E := E) data) fuel1 c1 bucket key
                (Some bs1) (Some d) in
  let run2 := Positional.readAll (Mock.S3 (E := E) data) fuel2 c2 bucket key
                (Some bs2) (Some d) in
  fst run1 = fst run2 /\
  result (snd run1) = result (snd run2) /\
  exists last, result (snd run1) = Returned (Some last).
Proof.
  intros Hd H1 H2 Hf1 Hf2 run1 run2.
  destruct (readAll_splits (E := E) data d Hd fuel1 c1 bucket key bs1 H1 Hf1)
    as (l1 & t1 & u1 & Hrun1 & Hres1 & _ & Hsp1 & _).
  destruct (readAll_splits (E := E) data d Hd fuel2 c2 bucket key bs2 H2 Hf2)
    as (l2 & t2 & u2 & Hrun2 & Hres2 & _ & Hsp2 & _).
  subst run1 run2. rewrite Hrun1, Hrun2. simpl.
  destruct (Splits_functional _ _ _ _ _ _ Hsp1 Hsp2) as [-> ->].
  rewrite Hres1, Hres2. repeat split. now exists t2.
Qed.

Lemma getLines_chunk_size_independent_witness :
  LF <> "" /\ 0 < 1 /\ 0 < 131072 /\
  (String.length ("a" ++ LF ++ LF ++ "bc") + 2 <= 7)%nat /\
  (String.length ("a" ++ LF ++ LF ++ "bc") + 2 <= 9)%nat /\
  let run1 := Positional.readAll (Mock.S3 (E := unit) ("a" ++ LF ++ LF ++ "bc"))
                7 [] "some-bucket" "some-key" (Some 1) (Some LF) in
  let run2 := Positional.readAll (Mock.S3 (E := unit) ("a" ++ LF ++ LF ++ "bc"))
                9 [] "some-bucket" "some-key" (Some 131072) (Some LF) in
  fst run1 = fst run2 /\
  result (snd run1) = result (snd run2) /\
  exists last, result (snd run1) = Returned (Some last).
Proof.
  split; [discriminate|]. split; [lia|]. split; [lia|].
  split; [simpl; lia|]. split; [simpl; lia|].
  apply getLines_chunk_size_independent;
    [discriminate | lia | lia | simpl; lia | simpl; lia].
Defined.

(** ** A delimiter split across two chunks *)

Lemma indexOf_take (s d : string) (n q : nat) :
  indexOf (take n s) d = Some q -> indexOf s d = Some q.
Proof.
  intros H. rewrite <- (take_drop n s). now apply indexOf_append.
Qed.

(** With the loop of [src/s3-line-reader.ts] and [src/unnamed/part_000]:
    when the first delimiter of the object starts at position [p] and the
    first fetched chunk (bytes [0 .. bs]) ends inside it, the chunk by
    itself holds no delimiter, and still the pass yields the text before
    [p] as its first record and goes on exactly as a pass over the bytes
    after the delimiter does: the delimiter is found once, neither missed
    nor taken for more.  With the content of the test,
    ["This is the first line\r\nThis is the second line"], delimiter
    ['\r\n'] and chunk size 22 the first record is
    ["This is the first line"] and the returned value is
    ["This is the second line"], in [src/s3-line-reader.ts] and in
    [src/unnamed/part_001]. *)
Theorem delimiter_across_chunks {E : Type} (data d : string) (bs : Z)
  (p : nat) (fuel : nat) (c : list Mock.request) (bucket key : string) :
  0 < bs ->
  indexOf data d = Some p ->
  Z.of_nat p < bs + 1 < Z.of_nat (p + String.length d) ->
  (String.length data + 2 <= fuel)%nat ->
  indexOf (Mock.subarray data 0 (bs + 1)) d = None /\
  (exists lines last t t',
      Positional.readAll (Mock.S3 (E := E) data) fuel c bucket key
        (Some bs) (Some d) = (take p data :: lines, t) /\
      result t = Returned (Some last) /\
      Positional.readAll
        (Mock.S3 (E := E) (drop (p + String.length d) data)) fuel c bucket key
        (Some bs) (Some d) = (lines, t') /\
      result t' = Returned (Some last)) /\
  (let run := Positional.readAll
                (Mock.S3 (E := E)
                   ("This is the first line" ++ CRLF
                    ++ "This is the second line"))
                49 [] "some-bucket" "some-key" (Some 22) (Some CRLF) in
   fst run = ["This is the first line"] /\
   result (snd run) = Returned (Some "This is the second line")) /\
  (let run := Append.readAll
                (Mock.S3 (E := E)
                   ("This is the first line" ++ CRLF
                    ++ "This is the second line"))
                49 [] "some-bucket" "some-key" (Some 22) (Some CRLF) in
   fst run = ["This is the first line"] /\
   result (snd run) = Returned (Some "This is the second line")).
Proof.
  intros Hbs Hp Hin Hf.
  assert (Hd : d <> "") by (intros ->; simpl in Hin; lia).
  split; [|split; [|split; vm_compute; split; reflexivity]].
  - unfold Mock.subarray. simpl Z.to_nat. rewrite Nat.sub_0_r.
    change (drop 0 data) with data.
    destruct (indexOf (take (Z.to_nat (bs + 1)) data) d) as [q|] eqn:Hq;
      [|reflexivity].
    pose proof (indexOf_bound _ _ _ Hq) as Hb. rewrite length_take in Hb.
    apply indexOf_take in Hq. rewrite Hp in Hq. injection Hq as <-. lia.
  - destruct (readAll_splits (E := E) data d Hd fuel c bucket key bs Hbs Hf)
      as (lines & last & t & Hrun & Hres & _ & Hsp & _).
    inversion Hsp as [s Hnone | s p' lines' last' Hp' Hrest]; subst;
      [congruence|].
    assert (p' = p) by congruence; subst p'.
    assert (Hf' : (String.length (drop (p + String.length d) data) + 2
                   <= fuel)%nat) by (rewrite length_drop; lia).
    destruct (readAll_splits (E := E) _ d Hd fuel c bucket key bs Hbs Hf')
      as (lines2 & last2 & t2 & Hrun2 & Hres2 & _ & Hsp2 & _).
    destruct (Splits_functional _ _ _ _ _ _ Hrest Hsp2) as [-> ->].
    exists lines2, last2, t, t2. now repeat split.
Qed.

Lemma delimiter_across_chunks_witness :
  0 < 4 /\
  indexOf ("abcd" ++ CRLF ++ "e" ++ CRLF ++ "f") CRLF = Some 4%nat /\
  Z.of_nat 4 < 4 + 1 < Z.of_nat (4 + String.length CRLF) /\
  (String.length ("abcd" ++ CRLF ++ "e" ++ CRLF ++ "f") + 2 <= 12)%nat /\
  indexOf (Mock.subarray ("abcd" ++ CRLF ++ "e" ++ CRLF ++ "f") 0 (4 + 1))
    CRLF = None /\
  (exists lines last t t',
      Positional.readAll
        (Mock.S3 (E := unit) ("abcd" ++ CRLF ++ "e" ++ CRLF ++ "f"))
        12 [] "some-bucket" "some-key" (Some 4) (Some CRLF)
      = (take 4 ("abcd" ++ CRLF ++ "e" ++ CRLF ++ "f") :: lines, t) /\
      result t = Returned (Some last) /\
      Positional.readAll
        (Mock.S3 (E := unit)
           (drop (4 + String.length CRLF)
              ("abcd" ++ CRLF ++ "e" ++ CRLF ++ "f")))
        12 [] "some-bucket" "some-key" (Some 4) (Some CRLF) = (lines, t') /\
      result t' = Returned (Some last)).
Proof.
  split; [lia|]. split; [reflexivity|]. split; [simpl; lia|].
  split; [simpl; lia|].
  pose proof (delimiter_across_chunks (E := unit)
                ("abcd" ++ CRLF ++ "e" ++ CRLF ++ "f") CRLF 4 4 12 []
                "some-bucket" "some-key") as H.
  destruct H as (H1 & H2 & _); [lia | reflexivity | simpl; lia | simpl; lia|].
  split; [exact H1 | exact H2].
Defined.

(** ** The returned value *)



(** ** The cursor *)

Section Cursor.

Context {E : Type}.
Variable data : string.
Variable d : string.

Local Abbreviation s3 := (Mock.S3 (E := E) data).

Lemma scan_self (buffer : string) (this : reader) :
  match scan d buffer this with
  | Line _ _ _ this' | Exit this' =>
      byteOffset this' = byteOffset this /\ size this' = size this /\
      bufferSize this' = bufferSize this
  | Spinning => False
  end.
Proof.
  unfold scan. destruct (String.length buffer =? 0)%nat; [now repeat split|].
  destruct (indexOf buffer d); now repeat split.
Qed.

(** Each fetch moves the cursor forward, at most to one past the size. *)
Lemma fetchLoop_cursor (fuel : nat) :
  forall (c : list Mock.request) (this : reader),
    0 < bufferSize this ->
    byteOffset this <= size this + 1 ->
    let t := fetchLoop s3 d fuel c this in
    size (self t) = size this /\
    bufferSize (self t) = bufferSize this /\
    byteOffset this <= byteOffset (self t) <= size this + 1 /\
    gen t <> SuspendedStart /\
    (forall last, result t = Returned (Some last) ->
                  size this <= byteOffset (self t)).
Proof.
  induction fuel as [|fuel IH]; intros c this Hbs Hle t; subst t.
  - cbn [fetchLoop]. destruct (byteOffset this <? size this) eqn:Hlt; simpl.
    + repeat split; try lia; discriminate.
    + apply Z.ltb_ge in Hlt. repeat split; try lia; discriminate.
  - destruct (byteOffset this <? size this) eqn:Hlt.
    + rewrite fetchLoop_more by assumption. cbv zeta.
      apply Z.ltb_lt in Hlt.
      set (last := if byteOffset this + bufferSize this >? size this
                   then size this
                   else byteOffset this + bufferSize this).
      assert (Hlast : byteOffset this < last + 1 <= size this + 1).
      { subst last. destruct (_ >? _) eqn:Hc; lia. }
      set (this1 := set_partial "" (set_byteOffset (last + 1) this)).
      pose proof (scan_self (partial this
                             ++ Mock.subarray data (byteOffset this) (last + 1))
                    this1) as Hscan.
      destruct (scan d _ this1) as [line buffer p this2 | this2 |];
        [| |contradiction]; destruct Hscan as (Ho & Hs & Hb); simpl in Ho, Hs, Hb.
      * simpl. repeat split; try lia; discriminate.
      * specialize (IH (c ++ [Mock.SendRequest
                                {| Bucket := bucket this; Key := key this;
                                   Range := (byteOffset this, last) |}])%list
                      this2).
        cbv zeta in IH. rewrite Hs, Hb, Ho in IH.
        destruct IH as (H1 & H2 & H3 & H4 & H5); try lia.
        repeat split; try assumption; lia.
    + rewrite fetchLoop_done by assumption. apply Z.ltb_ge in Hlt. simpl.
      repeat split; try lia; discriminate.
Qed.

Lemma resume_cursor (bs : Z) (fuel : nat) (t : turn E (list Mock.request)) :
  0 < bs -> cursor_ok data bs t ->
  let t' := resume s3 d fuel (conn t) (self t) (gen t) in
  cursor_ok data bs t' /\ byteOffset (self t) <= byteOffset (self t').
Proof.
  intros Hbs (Hb & [(Hg & _ & Ho & Hs) | (Hg & Hs & Ho & Hr)]) t'; subst t'.
  - rewrite Hg. cbn [resume Mock.S3 headObject ContentLength].
    set (this1 := set_size (Z.of_nat (String.length data)) (self t)).
    destruct (fetchLoop_cursor fuel
                (conn t ++ [Mock.HeadObjectRequest (bucket (self t))
                              (key (self t))])%list this1)
      as (H1 & H2 & H3 & H4 & H5); simpl; try lia.
    simpl in H1, H2, H3, H5. split; [|lia].
    split; [congruence|]. right. rewrite H1.
    repeat split; try assumption; try lia.
  - destruct (gen t) as [|buffer p| |] eqn:Hgen; [congruence| | |].
    + cbn [resume].
      pose proof (scan_self
                    (substringFrom buffer (p + String.length d)) (self t))
        as Hscan.
      destruct (scan d _ (self t)) as [line buffer' q this2 | this2 |];
        [| |contradiction]; destruct Hscan as (Ho' & Hs' & Hb').
      * unfold cursor_ok; simpl. split; [|lia]. split; [congruence|]. right.
        repeat split; try lia; try discriminate.
      * destruct (fetchLoop_cursor fuel (conn t) this2)
          as (H1 & H2 & H3 & H4 & H5); try lia.
        unfold cursor_ok. split; [|lia]. split; [congruence|]. right.
        rewrite H1, Hs'.
        repeat split; try assumption; try lia.
        intros last Hl. rewrite <- Hs'. now apply (H5 last).
    + unfold cursor_ok; simpl. split; [|lia]. split; [assumption|]. right.
      repeat split; try assumption; try lia; discriminate.
    + unfold cursor_ok; simpl. split; [|lia]. split; [assumption|]. right.
      repeat split; try assumption; try lia; discriminate.
Qed.

Lemma after_snoc (fuels : list nat) (fuel : nat) (c : list Mock.request)
  (this : reader) (fr : frame) :
  after (resume s3 d) (fuels ++ [fuel]) c this fr =
  let t := after (resume s3 d) fuels c this fr in
  resume s3 d fuel (conn t) (self t) (gen t).
Proof. unfold after. now rewrite fold_left_app. Qed.

Lemma after_cursor (bs : Z) (fuels : list nat) (c : list Mock.request)
  (bucket key : string) :
  0 < bs ->
  cursor_ok data bs (after (resume s3 d) fuels c
                  (Positional.created bucket key (Some bs)) SuspendedStart).
Proof.
  intros Hbs. induction fuels as [|fuel fuels IH] using rev_ind.
  - split; [reflexivity|]. left. now repeat split.
  - rewrite after_snoc. now apply resume_cursor.
Qed.

End Cursor.




(** ** Construction *)

(** C7 as the specification states it fails: the constructor of
    [src/unnamed/part_000] given [''] and [0] completes, with the default
    delimiter and chunk size; given [-1] it completes with chunk size [-1],
    and so does the constructor of [src/s3-line-reader.ts]. *)
Lemma constructor_does_not_reject :
  (exists r,
      Options.constructor (E := string) "some-bucket" "some-key"
        {| Options.cfg_bufferSize := Some 0;
           Options.cfg_lineDelimiter := Some "" |} = Normal r /\
      Options.lineDelimiter r = LF /\
      bufferSize (Options.base r) = 131072) /\
  (exists r,
      Options.constructor (E := string) "some-bucket" "some-key"
        {| Options.cfg_bufferSize := Some (-1);
           Options.cfg_lineDelimiter := None |} = Normal r /\
      bufferSize (Options.base r) = -1) /\
  (exists r,
      Positional.constructor (E := string) "some-bucket" "some-key"
        (Some (-1)) = Normal r /\
      bufferSize r = -1).
Proof.
  split; [|split]; eexists; (split; [reflexivity|]); try split; reflexivity.
Qed.

(** C7, as the code has it.  No constructor throws.  The one of
    [src/unnamed/part_000] puts ['\n'] in place of an absent or empty
    delimiter and [131072] in place of an absent or zero chunk size, and
    keeps any other value, so the reader it builds has a non-empty
    delimiter and a chunk size other than zero, its cursor at 0 and no
    generator yet.  The one of [src/s3-line-reader.ts] keeps the chunk size
    it is given and takes [131072] when given none. *)
Theorem constructor_defaults {E : Type} (bucket key : string)
  (cfg : Options.config) (bs : option Z) :
  (exists r,
      Options.constructor (E := E) bucket key cfg = Normal r /\
      Options.lineDelimiter r <> "" /\
      bufferSize (Options.base r) <> 0 /\
      Options.lineDelimiter r =
        match Options.cfg_lineDelimiter cfg with
        | None | Some EmptyString => LF
        | Some s => s
        end /\
      bufferSize (Options.base r) =
        match Options.cfg_bufferSize cfg with
        | None | Some 0 => 131072
        | Some n => n
        end /\
      byteOffset (Options.base r) = 0 /\
      partial (Options.base r) = "" /\
      Options.generator r = None) /\
  (exists r,
      Positional.constructor (E := E) bucket key bs = Normal r /\
      bufferSize r = match bs with None => 131072 | Some n => n end /\
      byteOffset r = 0 /\ partial r = "").
Proof.
  split.
  - eexists. split; [reflexivity|]. simpl.
    destruct cfg as [[n|] [s|]]; simpl.
    all: repeat split;
      try (destruct s; simpl; [discriminate | discriminate]);
      try (destruct s; reflexivity);
      try (destruct n; simpl; discriminate);
      try (destruct n; reflexivity);
      try discriminate.
  - eexists. split; [reflexivity|]. destruct bs; now repeat split.
Qed.

(** ** The two ways of keeping the carry *)

(** C9 fails on ["aaxyxy"] with delimiter ["xy"] and chunk size 2 (chunks
    ["aax"] and ["yxy"]): [src/unnamed/part_001] yields ["aaxy"], where
    [src/s3-line-reader.ts] yields ["aa"] and [""]; with the whole object
    in one chunk [src/unnamed/part_001] yields ["aa"] and [""] as well. *)
Lemma append_variant_differs :
  let service := Mock.S3 (E := unit) "aaxyxy" in
  let appended := Append.readAll service 8 [] "some-bucket" "some-key"
                    (Some 2) (Some "xy") in
  let prepended := Positional.readAll service 8 [] "some-bucket" "some-key"
                     (Some 2) (Some "xy") in
  let whole := Append.readAll service 8 [] "some-bucket" "some-key"
                 (Some 131072) (Some "xy") in
  fst appended = ["aaxy"] /\
  result (snd appended) = Returned (Some "") /\
  fst prepended = ["aa"; ""] /\
  result (snd prepended) = Returned (Some "") /\
  fst whole = ["aa"; ""] /\
  result (snd whole) = Returned (Some "") /\
  fst appended <> fst prepended.
Proof. vm_compute. repeat split; discriminate. Qed.

(** C2 fails in [src/unnamed/part_001]: over ["aaxyxy"] with delimiter
    ["xy"], chunk size 2 gives the record ["aaxy"] and chunk size 6 the
    records ["aa"] and [""]. *)
Lemma append_depends_on_chunk_size :
  let service := Mock.S3 (E := unit) "aaxyxy" in
  let small := Append.readAll service 9 [] "some-bucket" "some-key"
                 (Some 2) (Some "xy") in
  let large := Append.readAll service 9 [] "some-bucket" "some-key"
                 (Some 6) (Some "xy") in
  fst small = ["aaxy"] /\ result (snd small) = Returned (Some "") /\
  fst large = ["aa"; ""] /\ result (snd large) = Returned (Some "") /\
  fst small <> fst large.
Proof. vm_compute. repeat split; discriminate. Qed.

(** C3 fails in [src/unnamed/part_001]: in ["aaxyxy"] the first ["xy"]
    starts at 2 and chunk size 2 puts the chunk boundary inside it (the
    chunks are ["aax"] and ["yxy"], the first without a delimiter); the
    first record is ["aaxy"], not ["aa"]: the delimiter that was split is
    missed. *)
Lemma append_misses_split_delimiter :
  let data := "aaxyxy" in
  let run := Append.readAll (Mock.S3 (E := unit) data) 9 []
               "some-bucket" "some-key" (Some 2) (Some "xy") in
  indexOf data "xy" = Some 2%nat /\
  Mock.subarray data 0 (2 + 1) = "aax" /\
  indexOf (Mock.subarray data 0 (2 + 1)) "xy" = None /\
  fst run = ["aaxy"] /\
  hd "" (fst run) <> take 2 data.
Proof. vm_compute. repeat split; discriminate. Qed.

(** ** The cached generator of [src/unnamed/part_000] *)

Section Cached.

Context {E C : Type}.
Variable s3 : Client.S3 E C.

Lemma store_length (g : nat) (fr : frame) (h : list frame) :
  List.length (Options.store g fr h) = List.length h.
Proof.
  revert g; induction h as [|x h IH]; intros [|g]; simpl; try reflexivity.
  now rewrite IH.
Qed.

Lemma getLines_again (w : Options.world (C := C)) (g : nat) :
  Options.generator (Options.this w) = Some g ->
  Options.getLines w = (g, w).
Proof. intros H. unfold Options.getLines. now rewrite H. Qed.

Lemma perform_keeps_generator (k : Options.call) (w : Options.world) (g : nat) :
  Options.generator (Options.this w) = Some g ->
  Options.generator (Options.this (Options.perform s3 k w)) = Some g /\
  List.length (Options.heap (Options.perform s3 k w))
  = List.length (Options.heap w).
Proof.
  intros H. destruct k as [|fuel g']; simpl.
  - rewrite (getLines_again w g H). now split.
  - unfold Options.next. destruct (nth_error (Options.heap w) g'); simpl.
    + split; [exact H | apply store_length].
    + now split.
Qed.

Lemma performAll_keeps_generator (ks : list Options.call) :
  forall (w : Options.world) (g : nat),
    Options.generator (Options.this w) = Some g ->
    Options.generator (Options.this (Options.performAll s3 ks w)) = Some g /\
    List.length (Options.heap (Options.performAll s3 ks w))
    = List.length (Options.heap w).
Proof.
  induction ks as [|k ks IH]; intros w g H; [now split|].
  unfold Options.performAll in *. simpl.
  destruct (perform_keeps_generator k w g H) as [H1 H2].
  destruct (IH _ g H1) as [H3 H4]. split; [exact H3 | congruence].
Qed.

End Cached.

Lemma fetchLoop_monotone {E C : Type} (s3 : Client.S3 E C) (d : string)
  (fuel : nat) :
  forall (c : C) (this : reader),
    0 < bufferSize this ->
    byteOffset this <= byteOffset (self (fetchLoop s3 d fuel c this)).
Proof.
  induction fuel as [|fuel IH]; intros c this Hbs; cbn [fetchLoop].
  - destruct (byteOffset this <? size this); simpl; lia.
  - destruct (byteOffset this <? size this) eqn:Hlt; [|simpl; lia].
    apply Z.ltb_lt in Hlt.
    set (last := if byteOffset this + bufferSize this >? size this
                 then size this
                 else byteOffset this + bufferSize this).
    assert (Hlast : byteOffset this < last + 1)
      by (subst last; destruct (_ >? _) eqn:Hc; lia).
    destruct (send s3 c _) as [[file|e] c']; [|simpl; lia].
    destruct (Body file) as [body|]; [|simpl; lia].
    destruct (readStream body) as [chunk|e]; [|simpl; lia].
    set (this1 := set_partial "" (set_byteOffset (last + 1) this)).
    pose proof (scan_self d (partial (set_byteOffset (last + 1) this) ++ chunk)
                  this1) as Hscan.
    destruct (scan d _ this1) as [line buffer p this2 | this2 |];
      [| |contradiction]; destruct Hscan as (Ho & Hs & Hb);
      simpl in Ho, Hs, Hb.
    + simpl. lia.
    + specialize (IH c' this2). lia.
Qed.

(** A call of [next()], on whatever generator of the reader, never moves
    the cursor back. *)
Lemma resume_monotone {E C : Type} (s3 : Client.S3 E C) (d : string)
  (fuel : nat) (c : C) (this : reader) (fr : frame) :
  0 < bufferSize this ->
  byteOffset this <= byteOffset (self (resume s3 d fuel c this fr)).
Proof.
  intros Hbs. destruct fr as [|buffer p| |]; cbn [resume]; try (simpl; lia).
  - destruct (headObject s3 c _ _) as [[head|e] c']; [|simpl; lia].
    apply (fetchLoop_monotone s3 d fuel c' (set_size _ this)). exact Hbs.
  - pose proof (scan_self d (substringFrom buffer (p + String.length d)) this)
      as Hscan.
    destruct (scan d _ this) as [line buffer' q this2 | this2 |];
      [| |contradiction]; destruct Hscan as (Ho & Hs & Hb).
    + simpl. lia.
    + pose proof (fetchLoop_monotone s3 d fuel c this2). lia.
Qed.

(** C5 as the specification states it fails in [src/s3-line-reader.ts]:
    over ["a\nb\nc"], after the first generator yielded ["a"], the
    generator a second call of [getLines] returns is at its start and
    returns [''] at its first [next()], where the first generator goes on
    with ["b"]. *)
Lemma positional_getLines_makes_a_generator :
  let service := Mock.S3 (E := unit) ("a" ++ LF ++ "b" ++ LF ++ "c") in
  let this := Positional.created "some-bucket" "some-key" None in
  let g1 := Positional.getLines None in
  let t1 := Positional.next service g1 1 [] this (Positional.state g1) in
  let g2 := Positional.getLines None in
  let t2 := Positional.next service g2 1 (conn t1) (self t1)
              (Positional.state g2) in
  let t1' := Positional.next service g1 1 (conn t1) (self t1) (gen t1) in
  result t1 = Yielded "a" /\
  gen t1 = SuspendedYield ("a" ++ LF ++ "b" ++ LF ++ "c") 1 /\
  Positional.state g2 = SuspendedStart /\
  result t2 = Returned (Some "") /\
  result t1' = Yielded "b" /\
  result t2 <> result t1'.
Proof. vm_compute. repeat split; discriminate. Qed.

(** C5, as the code has it.  On a reader of [src/unnamed/part_000],
    whatever is done after the first call of [getLines] (further calls of
    [getLines], calls of [next()] on any generator, in any order), a call
    of [getLines] returns the address the first call returned and changes
    nothing: no generator object is made, the cursor, the carry and the
    frame of the generator stay as they are, and the service is not
    called; so over ["a\nb\nc"], after the first [next()] yielded ["a"],
    the generator got from a second [getLines()] yields ["b"] next, with
    no other request to the service.  On a reader of
    [src/s3-line-reader.ts] every call of [getLines] returns a generator
    at its start, and a [next()] on it works on the cursor of the reader
    as it stands and never moves it back. *)
Theorem getLines_same_generator {E C : Type} (s3 : Client.S3 E C) (c : C)
  (bkt obj : string) (cfg : Options.config) (calls : list Options.call)
  (d : option string) (this : reader) (fuel : nat) :
  (let first := Options.getLines (Options.started c bkt obj cfg) in
   let w := Options.performAll s3 calls (snd first) in
   Options.getLines w = (fst first, w) /\
   List.length (Options.heap w) = 1%nat) /\
  (let service := Mock.S3 (E := E) ("a" ++ LF ++ "b" ++ LF ++ "c") in
   let first :=
     Options.getLines
       (Options.started [] "some-bucket" "some-key"
          {| Options.cfg_bufferSize := None;
             Options.cfg_lineDelimiter := None |}) in
   exists w1 w2,
     Options.next service 1 (fst first) (snd first)
     = Some (Yielded "a", w1) /\
     Options.getLines w1 = (fst first, w1) /\
     Options.next service 0 (fst (Options.getLines w1))
       (snd (Options.getLines w1)) = Some (Yielded "b", w2) /\
     Options.service w2 = Options.service w1) /\
  (let g := Positional.getLines d in
   Positional.state g = SuspendedStart /\
   (0 < bufferSize this ->
    byteOffset this
    <= byteOffset (self (Positional.next s3 g fuel c this
                           (Positional.state g))))).
Proof.
  split; [|split].
  - cbv zeta.
    assert (H : Options.generator
                  (Options.this
                     (snd (Options.getLines
                             (Options.started c bkt obj cfg)))) = Some 0%nat)
      by reflexivity.
    destruct (performAll_keeps_generator s3 calls _ _ H) as [H1 H2].
    split; [now apply getLines_again | exact H2].
  - cbv zeta. eexists. eexists.
    split; [vm_compute; reflexivity|].
    split; [vm_compute; reflexivity|].
    split; vm_compute; reflexivity.
  - cbv zeta. split; [reflexivity|]. intros Hbs.
    unfold Positional.next. now apply resume_monotone.
Qed.

Lemma getLines_same_generator_witness :
  0 < bufferSize (Positional.created "some-bucket" "some-key" (Some 4)) /\
  let g := Positional.getLines (Some LF) in
  byteOffset (Positional.created "some-bucket" "some-key" (Some 4))
  <= byteOffset
       (self (Positional.next (Mock.S3 (E := unit) ("ab" ++ LF ++ "c")) g 3 []
                (Positional.created "some-bucket" "some-key" (Some 4))
                (Positional.state g))).
Proof.
  split; [simpl; lia|].
  destruct (getLines_same_generator (Mock.S3 (E := unit) ("ab" ++ LF ++ "c"))
              [] "some-bucket" "some-key"
              {| Options.cfg_bufferSize := None;
                 Options.cfg_lineDelimiter := None |} []
              (Some LF)
              (Positional.created "some-bucket" "some-key" (Some 4)) 3)
    as (_ & _ & _ & H).
  apply H. simpl. lia.
Defined.

(** ** Termination *)

Lemma scan_empty_delimiter (buffer : string) (this : reader) :
  buffer <> "" -> scan "" buffer this = Line "" buffer 0 this.
Proof.
  intros H. unfold scan. destruct buffer as [|a buffer]; [congruence|].
  reflexivity.
Qed.

(** With [''] for delimiter a generator suspended on a buffer that is not
    empty yields [''] at every [next()] and stays where it is. *)
Lemma drain_empty_delimiter {E C : Type} (s3 : Client.S3 E C) (fuel : nat) :
  forall (c : C) (this : reader) (buffer : string),
    buffer <> "" ->
    drain (resume s3 "") fuel c this (SuspendedYield buffer 0)
    = (repeat "" fuel, Build_turn Pending (SuspendedYield buffer 0) c this).
Proof.
  induction fuel as [|fuel IH]; intros c this buffer Hb; [reflexivity|].
  cbn [drain resume]. unfold substringFrom. cbn [Nat.add String.length drop].
  rewrite (scan_empty_delimiter buffer this Hb). cbn [result conn self gen].
  now rewrite (IH c this buffer Hb).
Qed.

Lemma readAll_drain {E C : Type} (s3 : Client.S3 E C) (fuel : nat) (c : C)
  (bucket key : string) (bs : option Z) (d : string) :
  Positional.readAll s3 fuel c bucket key bs (Some d)
  = drain (resume s3 d) fuel c (Positional.created bucket key bs)
      SuspendedStart.
Proof. reflexivity. Qed.

Lemma drain_S {E C : Type} (next : nat -> C -> reader -> frame -> turn E C)
  (fuel : nat) (c : C) (this : reader) (fr : frame) :
  drain next (S fuel) c this fr = continue next fuel (next fuel c this fr).
Proof. reflexivity. Qed.

Lemma resume_start_mock {E : Type} (data d : string) (fuel : nat)
  (c : list Mock.request) (this : reader) :
  resume (Mock.S3 (E := E) data) d fuel c this SuspendedStart
  = fetchLoop (Mock.S3 data) d fuel
      (c ++ [Mock.HeadObjectRequest (bucket this) (key this)])%list
      (set_size (Z.of_nat (String.length data)) this).
Proof. reflexivity. Qed.

Lemma fetchLoop_out_of_fuel {E C : Type} (s3 : Client.S3 E C) (d : string)
  (c : C) (this : reader) :
  (byteOffset this <? size this) = true ->
  fetchLoop s3 d 0 c this = Build_turn Pending Executing c this.
Proof. intros H. cbn [fetchLoop]. now rewrite H. Qed.

Lemma readAll_empty_delimiter {E : Type} (data : string) (bs : Z)
  (fuel : nat) (c : list Mock.request) (bucket key : string) :
  data <> "" -> 0 < bs ->
  let run := Positional.readAll (Mock.S3 (E := E) data) fuel c bucket key
               (Some bs) (Some "") in
  result (snd run) = Pending /\ ((2 <= fuel)%nat -> fst run = repeat "" fuel).
Proof.
  intros Hdata Hbs run. subst run. rewrite readAll_drain.
  assert (Hlen : (0 < String.length data)%nat)
    by (destruct data; [congruence | simpl; lia]).
  set (this := set_size (Z.of_nat (String.length data))
                 (Positional.created bucket key (Some bs))).
  assert (Hlt : (byteOffset this <? size this) = true)
    by (apply Z.ltb_lt; simpl; lia).
  destruct fuel as [|[|fuel]].
  - split; [reflexivity | lia].
  - split; [|lia]. rewrite drain_S, resume_start_mock.
    fold this. now rewrite fetchLoop_out_of_fuel.
  - rewrite drain_S, resume_start_mock. fold this.
    rewrite (fetchLoop_more data "" fuel _ this Hlt). cbv zeta.
    destruct (one_fetch data 0 bs) as (Hcat & Hl & _); [lia | exact Hbs|].
    cbv zeta in Hcat, Hl.
    change (byteOffset this) with 0. change (bufferSize this) with bs.
    change (size this) with (Z.of_nat (String.length data)).
    change (partial this) with "".
    set (last := if 0 + bs >? Z.of_nat (String.length data)
                 then Z.of_nat (String.length data) else 0 + bs) in *.
    change ("" ++ Mock.subarray data 0 (last + 1))
      with (Mock.subarray data 0 (last + 1)).
    assert (Hchunk : Mock.subarray data 0 (last + 1) <> "").
    { intros Hc. rewrite Hc in Hcat. simpl in Hcat. rewrite Hcat in Hl.
      simpl in Hl. lia. }
    rewrite (scan_empty_delimiter _ _ Hchunk).
    unfold continue. cbn [result conn self gen].
    rewrite drain_empty_delimiter by exact Hchunk.
    split; [reflexivity | intros _; reflexivity].
Qed.

(** ** Failures of the service *)

Section Failures.

Context {E : Type}.
Variable data : string.
Variable d : string.
Variable n : nat.
Variable e : E.

Local Abbreviation good := (Mock.S3 (E := E) data).
Local Abbreviation bad := (Mock.failing data (Some n) e).

Lemma fetchLoop_failing (fuel : nat) :
  forall (c : list Mock.request) (this : reader),
    same_or_rejected n e (fetchLoop bad d fuel c this)
      (fetchLoop good d fuel c this).
Proof.
  induction fuel as [|fuel IH]; intros c this.
  - left. reflexivity.
  - destruct (byteOffset this <? size this) eqn:Hlt.
    + rewrite (fetchLoop_more data d fuel c this Hlt).
      cbn [fetchLoop]. rewrite Hlt. cbn [Mock.failing send Range].
      destruct (Mock.sends c =? n)%nat eqn:Hn.
      * right. apply Nat.eqb_eq in Hn. cbn [result gen conn].
        rewrite sends_app, Hn. repeat split. lia.
      * cbv zeta. cbn [Mock.S3 send Range Body readStream Mock.from chunks
                       failure fold_left append].
        destruct (scan d _ _) as [line buffer p this2 | this2 |].
        -- left. reflexivity.
        -- apply IH.
        -- left. reflexivity.
    + left. cbn [fetchLoop]. rewrite Hlt. destruct fuel; reflexivity.
Qed.

Lemma resume_failing (fuel : nat) (c : list Mock.request) (this : reader)
  (fr : frame) :
  same_or_rejected n e (resume bad d fuel c this fr)
    (resume good d fuel c this fr).
Proof.
  destruct fr as [|buffer p| |]; cbn [resume].
  - cbn [Mock.failing Mock.S3 headObject ContentLength].
    apply fetchLoop_failing.
  - destruct (scan d _ this) as [line buffer' q this2 | this2 |].
    + left. reflexivity.
    + apply fetchLoop_failing.
    + left. reflexivity.
  - left. reflexivity.
  - left. reflexivity.
Qed.

(** The records the consumer got before the rejection are the first
    records of the pass that meets no failure. *)
Lemma drain_failing (fuel : nat) :
  forall (c : list Mock.request) (this : reader) (fr : frame),
    let runb := drain (resume bad d) fuel c this fr in
    let rung := drain (resume good d) fuel c this fr in
    runb = rung \/
    (exists more,
        fst rung = (fst runb ++ more)%list /\
        result (snd runb) = Rejected e /\
        gen (snd runb) = Completed /\
        Mock.sends (conn (snd runb)) = S n).
Proof.
  induction fuel as [|fuel IH]; intros c this fr; [now left|].
  cbv zeta. rewrite !drain_S.
  destruct (resume_failing fuel c this fr) as [Heq | (Hr & Hg & Hs)].
  - rewrite Heq. unfold continue.
    destruct (result (resume good d fuel c this fr)) eqn:Hres;
      try (now left).
    specialize (IH (conn (resume good d fuel c this fr))
                  (self (resume good d fuel c this fr))
                  (gen (resume good d fuel c this fr))).
    cbv zeta in IH.
    destruct (drain (resume bad d) fuel _ _ _) as [lb tb].
    destruct (drain (resume good d) fuel _ _ _) as [lg tg].
    destruct IH as [[= -> ->] | (more & Hm & H)]; [now left|].
    right. exists more. simpl in *. now rewrite Hm.
  - right.
    assert (Hc : continue (resume bad d) fuel (resume bad d fuel c this fr)
                 = ([], resume bad d fuel c this fr))
      by (unfold continue; now rewrite Hr).
    rewrite Hc. simpl.
    exists (fst (continue (resume good d) fuel (resume good d fuel c this fr))).
    now repeat split.
Qed.

End Failures.

(** C8.  Whatever the service, an exception of the size query or of a
    range request, or an ['error'] of the stream, settles the pending
    [next()] to a rejection with that very exception: the generator is
    completed there and then, the service is left as the one failing call
    left it (no second call), and a later [next()] gives
    [{ value: undefined, done: true }] without calling the service, so the
    carry is never returned.  Against the service of the tests made to
    reject its size query, the consumer gets no record and the rejection,
    no range having been requested; made to reject the range request that
    comes after [n] others, the consumer gets either the whole pass, or
    the first records of the pass and then the rejection, [n + 1] ranges
    having been requested. *)
Theorem failures_propagate {E : Type} (data d : string) (bs : Z)
  (fuel : nat) (c : list Mock.request) (bkt obj : string) (n : nat) (e : E) :
  d <> "" -> 0 < bs -> (String.length data + 2 <= fuel)%nat ->
  (forall (C : Type) (s3 : Client.S3 E C) (k k' : C) (this : reader)
          (fuel' : nat),
      headObject s3 k (bucket this) (key this) = (Abrupt e, k') ->
      resume s3 d fuel' k this SuspendedStart
      = Build_turn (Rejected e) Completed k' this) /\
  (forall (C : Type) (s3 : Client.S3 E C) (k k' : C) (this : reader)
          (fuel' : nat),
      byteOffset this < size this ->
      send s3 k
        {| Bucket := bucket this; Key := key this;
           Range := (byteOffset this,
                     if byteOffset this + bufferSize this >? size this
                     then size this
                     else byteOffset this + bufferSize this) |}
      = (Abrupt e, k') ->
      fetchLoop s3 d (S fuel') k this
      = Build_turn (Rejected e) Completed k' this) /\
  (forall (C : Type) (s3 : Client.S3 E C) (k k' : C) (this : reader)
          (fuel' : nat) (body : Readable E),
      byteOffset this < size this ->
      send s3 k
        {| Bucket := bucket this; Key := key this;
           Range := (byteOffset this,
                     if byteOffset this + bufferSize this >? size this
                     then size this
                     else byteOffset this + bufferSize this) |}
      = (Normal {| Body := Some body |}, k') ->
      failure body = Some e ->
      fetchLoop s3 d (S fuel') k this
      = Build_turn (Rejected e) Completed k'
          (set_byteOffset
             ((if byteOffset this + bufferSize this >? size this
               then size this
               else byteOffset this + bufferSize this) + 1) this)) /\
  (forall (C : Type) (s3 : Client.S3 E C) (k : C) (this : reader)
          (fuel' : nat),
      resume s3 d fuel' k this Completed
      = Build_turn (Returned None) Completed k this) /\
  (let run := Positional.readAll (Mock.failing data None e) fuel c bkt obj
                (Some bs) (Some d) in
   fst run = [] /\ result (snd run) = Rejected e /\
   gen (snd run) = Completed /\ Mock.sends (conn (snd run)) = Mock.sends c) /\
  (exists lines last t,
      Positional.readAll (Mock.S3 (E := E) data) fuel c bkt obj
        (Some bs) (Some d) = (lines, t) /\
      result t = Returned (Some last) /\
      let run := Positional.readAll (Mock.failing data (Some n) e) fuel c
                   bkt obj (Some bs) (Some d) in
      (run = (lines, t) \/
       exists more,
         lines = (fst run ++ more)%list /\
         result (snd run) = Rejected e /\
         gen (snd run) = Completed /\
         Mock.sends (conn (snd run)) = S n)).
Proof.
  intros Hd Hbs Hf. repeat split.
  - intros C s3 k k' this fuel' H. cbn [resume]. now rewrite H.
  - intros C s3 k k' this fuel' Hlt H. apply Z.ltb_lt in Hlt.
    cbn [fetchLoop]. now rewrite Hlt, H.
  - intros C s3 k k' this fuel' body Hlt H Hfail. apply Z.ltb_lt in Hlt.
    cbn [fetchLoop]. rewrite Hlt, H. cbn [Body]. unfold readStream.
    now rewrite Hfail.
  - destruct fuel as [|fuel]; [lia|]. now rewrite readAll_drain, drain_S.
  - destruct fuel as [|fuel]; [lia|]. now rewrite readAll_drain, drain_S.
  - destruct fuel as [|fuel]; [lia|]. now rewrite readAll_drain, drain_S.
  - destruct fuel as [|fuel]; [lia|]. rewrite readAll_drain, drain_S.
    cbn [resume Mock.failing headObject continue result snd conn].
    now rewrite sends_app, Nat.add_0_r.
  - destruct (readAll_splits (E := E) data d Hd fuel c bkt obj bs Hbs Hf)
      as (lines & last & t & Hrun & Hres & _).
    exists lines, last, t. split; [exact Hrun|]. split; [exact Hres|].
    cbv zeta. rewrite readAll_drain in *.
    pose proof (drain_failing data d n e fuel c
                  (Positional.created bkt obj (Some bs)) SuspendedStart) as H.
    cbv zeta in H. rewrite Hrun in H.
    destruct H as [H | (more & Hm & H)]; [now left|].
    right. exists more. split; [exact Hm | exact H].
Qed.

Lemma failures_propagate_witness :
  LF <> "" /\ 0 < 1 /\
  (String.length ("a" ++ LF ++ "b" ++ LF ++ "c" ++ LF ++ "d") + 2 <= 9)%nat /\
  exists lines last t,
    Positional.readAll
      (Mock.S3 (E := nat) ("a" ++ LF ++ "b" ++ LF ++ "c" ++ LF ++ "d")) 9 []
      "some-bucket" "some-key" (Some 1) (Some LF) = (lines, t) /\
    result t = Returned (Some last) /\
    let run := Positional.readAll
                 (Mock.failing ("a" ++ LF ++ "b" ++ LF ++ "c" ++ LF ++ "d")
                    (Some 1%nat) 503%nat) 9 []
                 "some-bucket" "some-key" (Some 1) (Some LF) in
    (run = (lines, t) \/
     exists more,
       lines = (fst run ++ more)%list /\
       result (snd run) = Rejected 503%nat /\
       gen (snd run) = Completed /\
       Mock.sends (conn (snd run)) = 2%nat).
Proof.
  split; [discriminate|]. split; [lia|]. split; [simpl; lia|].
  apply (failures_propagate (E := nat)
           ("a" ++ LF ++ "b" ++ LF ++ "c" ++ LF ++ "d") LF 1 9 []
           "some-bucket" "some-key" 1 503%nat);
    [discriminate | lia | simpl; lia].
Defined.

(** ** Termination of the loop of [src/unnamed/part_001] *)

Section AppendRun.

Context {E : Type}.
Variable data : string.
Variable d : string.
Hypothesis delimiter_not_empty : d <> "".

Local Abbreviation s3 := (Mock.S3 (E := E) data).

(** The inner loop takes at most two passes to reach a [yield] or to leave,
    and makes no text. *)
Lemma Append_scan_spec (fuel : nat) (buffer : string) (this : reader) :
  (2 <= fuel)%nat ->
  match Append.scan d fuel buffer this with
  | Line _ buffer' p this' =>
      indexOf buffer' d = Some p /\
      (String.length (partial this') + String.length buffer'
       <= String.length (partial this) + String.length buffer)%nat /\
      byteOffset this' = byteOffset this /\ size this' = size this /\
      bufferSize this' = bufferSize this
  | Exit this' =>
      (String.length (partial this')
       <= String.length (partial this) + String.length buffer)%nat /\
      byteOffset this' = byteOffset this /\ size this' = size this /\
      bufferSize this' = bufferSize this
  | Spinning => False
  end.
Proof.
  intros Hf. destruct fuel as [|[|fuel]]; try lia. cbn [Append.scan].
  destruct (String.length buffer =? 0)%nat eqn:Hempty.
  - repeat split; lia.
  - destruct (indexOf buffer d) as [p|] eqn:Hp.
    + destruct (String.length (partial this) =? 0)%nat eqn:Hpar; simpl;
        repeat split; try assumption; lia.
    + cbn [partial set_partial].
      destruct (indexOf (partial this ++ buffer) d) as [q|] eqn:Hq.
      * destruct (String.length (partial this ++ buffer) =? 0)%nat eqn:He.
        { apply Nat.eqb_eq, length_zero in He. rewrite He in Hq.
          rewrite indexOf_empty_data in Hq by assumption. discriminate. }
        simpl. rewrite length_append.
        repeat split; try assumption; lia.
      * simpl. rewrite length_append. repeat split; lia.
Qed.

Lemma progresses_le (T T' B B' : nat) (t : turn E (list Mock.request)) :
  progresses data d T B t -> (T <= T')%nat -> (B <= B')%nat ->
  progresses data d T' B' t.
Proof.
  intros (Hi & Hs & H) HT HB. split; [exact Hi|]. split; [lia|].
  destruct H as [(line & buffer & p & Hr & Hg & Hp & Hl) | H]; [|now right].
  left. exists line, buffer, p. repeat split; try assumption. lia.
Qed.

Lemma Append_fetchLoop_more (fuel : nat) (c : list Mock.request)
  (this : reader) :
  (byteOffset this <? size this) = true ->
  Append.fetchLoop s3 d (S fuel) c this =
  let top := byteOffset this + bufferSize this in
  let last := if top >? size this then size this else top in
  let command := {| Bucket := bucket this; Key := key this;
                    Range := (byteOffset this, last) |} in
  let this1 := set_byteOffset (last + 1) this in
  match Append.scan d (S fuel)
          (Mock.subarray data (byteOffset this) (last + 1)) this1 with
  | Line line buffer p this2 =>
      Build_turn (Yielded line) (SuspendedYield buffer p)
        (c ++ [Mock.SendRequest command])%list this2
  | Exit this2 =>
      Append.fetchLoop s3 d fuel (c ++ [Mock.SendRequest command])%list this2
  | Spinning => Build_turn Pending Executing
                  (c ++ [Mock.SendRequest command])%list this1
  end.
Proof.
  intros H. cbn [Append.fetchLoop]. rewrite H. reflexivity.
Qed.

Lemma Append_fetchLoop_done (fuel : nat) (c : list Mock.request)
  (this : reader) :
  (byteOffset this <? size this) = false ->
  Append.fetchLoop s3 d fuel c this =
  Build_turn (Returned (Some (partial this))) Completed c this.
Proof.
  intros H. destruct fuel; cbn [Append.fetchLoop]; rewrite H; reflexivity.
Qed.

Lemma Append_fetchLoop_progresses (fuel : nat) :
  forall (c : list Mock.request) (this : reader),
    size this = Z.of_nat (String.length data) ->
    0 <= byteOffset this -> 0 < bufferSize this ->
    (String.length (unfetched data this) + 1 < fuel)%nat ->
    progresses data d
      (String.length (partial this) + String.length (unfetched data this))
      (Mock.sends c + String.length (unfetched data this))
      (Append.fetchLoop s3 d fuel c this).
Proof.
  induction fuel as [|fuel IH]; intros c this Hsz Hoff Hbs Hf; [lia|].
  destruct (byteOffset this <? size this) eqn:Hlt.
  - rewrite Append_fetchLoop_more by assumption. cbv zeta.
    apply Z.ltb_lt in Hlt.
    assert (Hone := one_fetch data (byteOffset this) (bufferSize this)).
    rewrite <- Hsz in Hone. specialize (Hone (conj Hoff Hlt) Hbs).
    cbv zeta in Hone.
    set (last := if byteOffset this + bufferSize this >? size this
                 then size this
                 else byteOffset this + bufferSize this) in *.
    destruct Hone as (Hcat & Hlen & Hadv).
    set (chunk := Mock.subarray data (byteOffset this) (last + 1)) in *.
    set (command := {| Bucket := bucket this; Key := key this;
                       Range := (byteOffset this, last) |}).
    set (this1 := set_byteOffset (last + 1) this).
    assert (Hun : unfetched data this1 = drop (Z.to_nat (last + 1)) data)
      by reflexivity.
    assert (Hu : unfetched data this = chunk ++ unfetched data this1)
      by (rewrite Hun; symmetry; exact Hcat).
    rewrite <- Hun in Hlen. fold (unfetched data this) in Hlen.
    rewrite Hu, length_append in *. clear Hcat.
    assert (Hs : (Mock.sends (c ++ [Mock.SendRequest command])
                  + String.length (unfetched data this1)
                  <= Mock.sends c
                     + (String.length chunk
                        + String.length (unfetched data this1)))%nat)
      by (rewrite sends_app; lia).
    pose proof (Append_scan_spec (S fuel) chunk this1) as Hscan.
    destruct (Append.scan d (S fuel) chunk this1)
      as [line buffer p this2 | this2 |].
    + destruct Hscan as (Hp & Hl & Ho & Hs2 & Hb2); [lia|].
      assert (Hu2 : unfetched data this2 = unfetched data this1)
        by (unfold unfetched; now rewrite Ho).
      simpl in Hl, Hs2, Hb2, Ho. split; [simpl; repeat split; lia|].
      split; [simpl; rewrite Hu2; exact Hs|].
      left. exists line, buffer, p. simpl. rewrite Hu2.
      repeat split; try assumption. lia.
    + destruct Hscan as (Hl & Ho & Hs2 & Hb2); [lia|].
      assert (Hu2 : unfetched data this2 = unfetched data this1)
        by (unfold unfetched; now rewrite Ho).
      simpl in Hl, Hs2, Hb2, Ho.
      eapply progresses_le; [apply (IH _ this2); try lia | |].
      * rewrite Hu2. lia.
      * rewrite Hu2. lia.
      * rewrite Hu2. exact Hs.
    + destruct Hscan. lia.
  - rewrite Append_fetchLoop_done by assumption.
    apply Z.ltb_ge in Hlt.
    assert (Hu : unfetched data this = "")
      by (unfold unfetched; apply drop_all; lia).
    split; [now repeat split|]. split; [simpl; lia|].
    right. now exists (partial this).
Qed.

Lemma Append_next_progresses (fuel : nat) (c : list Mock.request)
  (this : reader) (buffer : string) (p : nat) :
  size this = Z.of_nat (String.length data) ->
  0 <= byteOffset this -> 0 < bufferSize this ->
  (String.length (unfetched data this) + 1 < fuel)%nat ->
  progresses data d
    (String.length (partial this)
     + String.length (drop (p + String.length d) buffer)
     + String.length (unfetched data this))
    (Mock.sends c + String.length (unfetched data this))
    (Append.next s3 d fuel c this (SuspendedYield buffer p)).
Proof.
  intros Hsz Hoff Hbs Hf. cbn [Append.next]. unfold substringFrom.
  set (rest := drop (p + String.length d) buffer).
  pose proof (Append_scan_spec (S fuel) rest this) as Hscan.
  destruct (Append.scan d (S fuel) rest this)
    as [line buffer' q this2 | this2 |].
  - destruct Hscan as (Hq & Hl & Ho & Hs2 & Hb2); [lia|].
    assert (Hu2 : unfetched data this2 = unfetched data this)
      by (unfold unfetched; now rewrite Ho).
    split; [simpl; repeat split; lia|].
    split; [simpl; rewrite Hu2; lia|].
    left. exists line, buffer', q. simpl. rewrite Hu2.
    repeat split; try assumption. lia.
  - destruct Hscan as (Hl & Ho & Hs2 & Hb2); [lia|].
    assert (Hu2 : unfetched data this2 = unfetched data this)
      by (unfold unfetched; now rewrite Ho).
    eapply progresses_le;
      [apply (Append_fetchLoop_progresses fuel c this2); try lia | |].
    + rewrite Hu2. lia.
    + rewrite Hu2. lia.
    + rewrite Hu2. lia.
  - destruct Hscan. lia.
Qed.

Lemma Append_continue (fuel : nat) :
  forall (T B : nat) (t : turn E (list Mock.request)),
    progresses data d T B t ->
    (T + 1 < fuel)%nat ->
    exists lines last t',
      continue (Append.next s3 d) fuel t = (lines, t') /\
      result t' = Returned (Some last) /\
      gen t' = Completed /\
      (List.length lines <= T)%nat /\
      (Mock.sends (conn t') <= B)%nat.
Proof.
  induction fuel as [|fuel IH]; intros T B t (Hi & Hs & H) Hf; [lia|].
  destruct H as [(line & buffer & p & Hr & Hg & Hp & Hl) | (last & Hr & Hg)].
  - unfold continue. rewrite Hr, Hg. rewrite drain_S.
    pose proof (indexOf_shrinks _ _ _ delimiter_not_empty Hp) as Hshr.
    destruct Hi as (Hsz & Hoff & Hbs).
    destruct (IH (String.length (partial (self t))
                  + String.length (drop (p + String.length d) buffer)
                  + String.length (unfetched data (self t)))%nat B
                (Append.next s3 d fuel (conn t) (self t)
                   (SuspendedYield buffer p)))
      as (lines & last & t' & Hc & Hr' & Hg' & Hn & Hs'); [| lia |].
    + eapply progresses_le;
        [apply Append_next_progresses; try assumption; lia | lia | lia].
    + rewrite Hc. exists (line :: lines), last, t'.
      repeat split; try assumption. simpl. lia.
  - unfold continue. rewrite Hr. exists [], last, t.
    repeat split; try assumption; simpl; lia.
Qed.

Lemma Append_readAll_returns (fuel : nat) (c : list Mock.request)
  (bkt obj : string) (bs : Z) :
  0 < bs ->
  (String.length data + 3 <= fuel)%nat ->
  exists lines last t,
    Append.readAll s3 fuel c bkt obj (Some bs) (Some d) = (lines, t) /\
    result t = Returned (Some last) /\
    gen t = Completed /\
    (List.length lines <= String.length data)%nat /\
    (Mock.sends (conn t) <= Mock.sends c + String.length data)%nat.
Proof.
  intros Hbs Hf. destruct fuel as [|fuel]; [lia|].
  unfold Append.readAll. rewrite drain_S.
  apply (Append_continue fuel (String.length data)); [|lia].
  cbn [Append.next Mock.S3 headObject ContentLength].
  set (this1 := set_size _ _).
  pose proof (Append_fetchLoop_progresses fuel
                (c ++ [Mock.HeadObjectRequest (bucket (Append.created bkt obj (Some bs)))
                         (key (Append.created bkt obj (Some bs)))])%list
                this1) as H.
  assert (Hu : unfetched data this1 = data) by reflexivity.
  rewrite Hu, sends_app, Nat.add_0_r in H. apply H; simpl; lia.
Qed.

End AppendRun.

(** C10.  For every object, every positive chunk size and every non-empty
    delimiter a pass of [getLines] ends, in [src/s3-line-reader.ts] as in
    [src/unnamed/part_001]: with enough fuel the consumer gets the returned
    value after at most one record per byte, the service having served at
    most one range request per byte; every fetch moves the cursor forward,
    to at most one past the size, and every match leaves the buffer
    shorter.  With the empty delimiter and an object that is not empty the
    pass never ends: whatever the fuel, every step yields [''] and none
    returns. *)
Theorem getLines_terminates {E : Type} (data d : string) (bs : Z)
  (fuel : nat) (c : list Mock.request) (bucket key : string) :
  d <> "" -> 0 < bs -> (String.length data + 3 <= fuel)%nat ->
  (exists lines last t,
      Positional.readAll (Mock.S3 (E := E) data) fuel c bucket key
        (Some bs) (Some d) = (lines, t) /\
      result t = Returned (Some last) /\
      gen t = Completed /\
      (List.length lines <= String.length data)%nat /\
      (Mock.sends (conn t) <= Mock.sends c + String.length data)%nat) /\
  (exists lines last t,
      Append.readAll (Mock.S3 (E := E) data) fuel c bucket key
        (Some bs) (Some d) = (lines, t) /\
      result t = Returned (Some last) /\
      gen t = Completed /\
      (List.length lines <= String.length data)%nat /\
      (Mock.sends (conn t) <= Mock.sends c + String.length data)%nat) /\
  (forall (fuel' : nat) (c' : list Mock.request) (this : reader),
      0 < bufferSize this ->
      byteOffset this < size this ->
      byteOffset this
      < byteOffset (self (fetchLoop (Mock.S3 (E := E) data) d (S fuel') c'
                            this))
      <= size this + 1) /\
  (forall (buffer : string) (p : nat),
      indexOf buffer d = Some p ->
      (String.length (substringFrom buffer (p + String.length d))
       < String.length buffer)%nat) /\
  (data <> "" ->
   forall fuel',
     let run := Positional.readAll (Mock.S3 (E := E) data) fuel' c bucket key
                  (Some bs) (Some "") in
     result (snd run) = Pending /\
     ((2 <= fuel')%nat -> fst run = repeat "" fuel')).
Proof.
  intros Hd Hbs Hf. split; [|split; [|split; [|split]]].
  - assert (Hf2 : (String.length data + 2 <= fuel)%nat) by lia.
    destruct (readAll_splits (E := E) data d Hd fuel c bucket key bs Hbs Hf2)
      as (lines & last & t & Hrun & Hres & Hgen & Hsp & _ & Hsends & _).
    exists lines, last, t. repeat split; try assumption.
    pose proof (Splits_count _ _ _ _ Hd Hsp). lia.
  - now apply Append_readAll_returns.
  - intros fuel' c' this Hb Hlt.
    assert (Hlt' : (byteOffset this <? size this) = true)
      by now apply Z.ltb_lt.
    rewrite (fetchLoop_more data d fuel' c' this Hlt'). cbv zeta.
    set (last := if byteOffset this + bufferSize this >? size this
                 then size this
                 else byteOffset this + bufferSize this).
    assert (Hlast : byteOffset this < last + 1 <= size this + 1).
    { subst last. destruct (_ >? _) eqn:Hc; lia. }
    set (this1 := set_partial "" (set_byteOffset (last + 1) this)).
    pose proof (scan_self d (partial this
                             ++ Mock.subarray data (byteOffset this) (last + 1))
                  this1) as Hscan.
    destruct (scan d _ this1) as [line buffer p this2 | this2 |];
      [| |contradiction]; destruct Hscan as (Ho & Hs & Hb');
      simpl in Ho, Hs, Hb'.
    + simpl. lia.
    + match goal with
      | |- context [fetchLoop _ _ _ ?c2 this2] =>
          destruct (fetchLoop_cursor (E := E) data d fuel' c2 this2)
            as (_ & _ & H3 & _); lia
      end.
  - intros buffer p Hp. now apply indexOf_shrinks.
  - intros Hdata fuel'. now apply readAll_empty_delimiter.
Qed.

Lemma getLines_terminates_witness :
  LF <> "" /\ 0 < 2 /\
  (String.length ("ab" ++ LF ++ "c") + 3 <= 7)%nat /\
  exists lines last t,
    Positional.readAll (Mock.S3 (E := unit) ("ab" ++ LF ++ "c")) 7 []
      "some-bucket" "some-key" (Some 2) (Some LF) = (lines, t) /\
    result t = Returned (Some last) /\
    gen t = Completed /\
    (List.length lines <= String.length ("ab" ++ LF ++ "c"))%nat /\
    (Mock.sends (conn t)
     <= Mock.sends [] + String.length ("ab" ++ LF ++ "c"))%nat.
Proof.
  split; [discriminate|]. split; [lia|]. split; [simpl; lia|].
  apply (getLines_terminates (E := unit) ("ab" ++ LF ++ "c") LF 2 7 []
           "some-bucket" "some-key"); [discriminate | lia | simpl; lia].
Defined.


(** * Further properties of the code *)

(** ** [readStream] *)




(** ** What the records are *)

Lemma Splits_lines_free (d s : string) (lines : list string) (last : string) :
  d <> "" -> Splits d s lines last ->
  Forall (fun line => indexOf line d = None) lines.
Proof.
  intros Hd H. induction H as [s Hs | s p lines last Hp _ IH];
    constructor; [|exact IH].
  destruct (indexOf (take p s) d) as [q|] eqn:Hq; [|reflexivity].
  pose proof (indexOf_bound _ _ _ Hq) as Hb. rewrite length_take in Hb.
  apply indexOf_take in Hq. assert (q = p) by congruence; subst q.
  destruct d; [congruence | simpl in Hb; lia].
Qed.

(** X2.  With the loop of [src/s3-line-reader.ts] no record that is
    yielded holds the delimiter. *)
Theorem records_hold_no_delimiter {E : Type} (data d : string) (bs : Z)
  (fuel : nat) (c : list Mock.request) (bkt obj : string) :
  d <> "" -> 0 < bs -> (String.length data + 2 <= fuel)%nat ->
  Forall (fun line => indexOf line d = None)
    (fst (Positional.readAll (Mock.S3 (E := E) data) fuel c bkt obj
            (Some bs) (Some d))).
Proof.
  intros Hd Hbs Hf.
  destruct (readAll_splits (E := E) data d Hd fuel c bkt obj bs Hbs Hf)
    as (lines & last & t & Hrun & _ & _ & Hsp & _).
  rewrite Hrun. simpl. now apply (Splits_lines_free d data lines last).
Qed.

Lemma records_hold_no_delimiter_witness :
  "xy" <> "" /\ 0 < 2 /\ (String.length "aaxyxy" + 2 <= 8)%nat /\
  Forall (fun line => indexOf line "xy" = None)
    (fst (Positional.readAll (Mock.S3 (E := unit) "aaxyxy") 8 []
            "some-bucket" "some-key" (Some 2) (Some "xy"))).
Proof.
  split; [discriminate|]. split; [lia|]. split; [simpl; lia|].
  apply records_hold_no_delimiter; [discriminate | lia | simpl; lia].
Defined.




(** ** An object without size *)

(** X4.  When the size query answers without [ContentLength], or with a
    size that is not positive, the pass yields nothing and returns [''],
    and the service is left as the size query left it: no range is
    requested. *)
Theorem no_size_no_request {E C : Type} (s3 : Client.S3 E C) (c c' : C)
  (bkt obj : string) (bs : option Z) (d : string) (fuel : nat)
  (contentLength : option Z) :
  headObject s3 c bkt obj
  = (Normal {| ContentLength := contentLength |}, c') ->
  match contentLength with Some n => n <= 0 | None => True end ->
  let run := Positional.readAll s3 (S fuel) c bkt obj bs (Some d) in
  fst run = [] /\
  result (snd run) = Returned (Some "") /\
  gen (snd run) = Completed /\
  conn (snd run) = c' /\
  byteOffset (self (snd run)) = 0.
Proof.
  intros Hhead Hlen run. subst run. rewrite readAll_drain, drain_S.
  cbn [resume Positional.created bucket key]. rewrite Hhead.
  cbn [ContentLength].
  set (this := set_size _ _).
  assert (Hge : (byteOffset this <? size this) = false).
  { apply Z.ltb_ge. subst this. destruct contentLength as [n|]; simpl; lia. }
  assert (Hloop : fetchLoop s3 d fuel c' this
                  = Build_turn (Returned (Some (partial this))) Completed c'
                      this)
    by (destruct fuel; cbn [fetchLoop]; now rewrite Hge).
  rewrite Hloop. unfold continue. simpl. now repeat split.
Qed.

Lemma no_size_no_request_witness :
  headObject (Mock.S3 (E := unit) "") [] "some-bucket" "some-key"
  = (Normal {| ContentLength := Some 0 |},
     [Mock.HeadObjectRequest "some-bucket" "some-key"]) /\
  0 <= 0 /\
  let run := Positional.readAll (Mock.S3 (E := unit) "") 1 []
               "some-bucket" "some-key" None (Some LF) in
  fst run = [] /\
  result (snd run) = Returned (Some "") /\
  gen (snd run) = Completed /\
  conn (snd run) = [Mock.HeadObjectRequest "some-bucket" "some-key"] /\
  byteOffset (self (snd run)) = 0.
Proof.
  split; [reflexivity|]. split; [lia|].
  apply (no_size_no_request (Mock.S3 (E := unit) "") []
           [Mock.HeadObjectRequest "some-bucket" "some-key"]
           "some-bucket" "some-key" None LF 0 (Some 0));
    [reflexivity | simpl; lia].
Defined.

(** ** A pass through the cached generator of [src/unnamed/part_000] *)

Lemma consume_as_drain {E C : Type} (s3 : Client.S3 E C) (fuel : nat) :
  forall (this : reader) (g : option nat) (d : string) (fr : frame) (c : C),
    Options.consume s3 fuel 0
      {| Options.this := {| Options.base := this; Options.generator := g;
                            Options.lineDelimiter := d |};
         Options.heap := [fr]; Options.service := c |}
    = let (lines, t) := drain (resume s3 d) fuel c this fr in
      (lines, Some (result t),
       {| Options.this := {| Options.base := self t; Options.generator := g;
                             Options.lineDelimiter := d |};
          Options.heap := [gen t]; Options.service := conn t |}).
Proof.
  induction fuel as [|fuel IH]; intros this g d fr c; [reflexivity|].
  rewrite drain_S. cbn [Options.consume]. unfold Options.next, continue.
  cbn [Options.heap nth_error Options.this Options.lineDelimiter
       Options.service Options.base Options.generator Options.store].
  destruct (result (resume s3 d fuel c this fr)) eqn:Hres;
    try (now rewrite Hres).
  rewrite IH. now destruct (drain (resume s3 d) fuel _ _ _).
Qed.

Lemma Options_readAll_drain {E C : Type} (s3 : Client.S3 E C) (fuel : nat)
  (c : C) (bkt obj : string) (cfg : Options.config) :
  let cached := Options.readAll s3 fuel c bkt obj cfg in
  let drained :=
    drain (resume s3 (Options.or_string (Options.cfg_lineDelimiter cfg) LF))
      fuel c
      (Positional.created bkt obj
         (Some (Options.or_number (Options.cfg_bufferSize cfg) (1024 * 128))))
      SuspendedStart in
  fst (fst cached) = fst drained /\
  snd (fst cached) = Some (result (snd drained)) /\
  Options.base (Options.this (snd cached)) = self (snd drained) /\
  Options.service (snd cached) = conn (snd drained) /\
  Options.heap (snd cached) = [gen (snd drained)].
Proof.
  cbv zeta. unfold Options.readAll.
  cbn [Options.getLines Options.started Options.created Options.this
       Options.generator Options.getLinesGenerator Options.heap List.length
       app Options.service Options.base Options.lineDelimiter].
  rewrite consume_as_drain.
  unfold Positional.created.
  destruct (drain _ fuel c _ SuspendedStart) as [lines t]. now repeat split.
Qed.

(** X5.  Against any service, [new S3LineReader(bucket, key,
    config).getLines()] of [src/unnamed/part_000] consumed to the end gives
    the lines, the last step, the reader fields and the service that
    [getLines] of [src/s3-line-reader.ts] gives with the chunk size and
    the delimiter the constructor settled on ([131072] for none or [0],
    ['\n'] for none or ['']). *)
Theorem cached_pass_is_the_positional_pass {E C : Type} (s3 : Client.S3 E C)
  (fuel : nat) (c : C) (bkt obj : string) (cfg : Options.config) :
  let cached := Options.readAll s3 fuel c bkt obj cfg in
  let positional :=
    Positional.readAll s3 fuel c bkt obj
      (Some (Options.or_number (Options.cfg_bufferSize cfg) (1024 * 128)))
      (Some (Options.or_string (Options.cfg_lineDelimiter cfg) LF)) in
  fst (fst cached) = fst positional /\
  snd (fst cached) = Some (result (snd positional)) /\
  Options.base (Options.this (snd cached)) = self (snd positional) /\
  Options.service (snd cached) = conn (snd positional) /\
  Options.heap (snd cached) = [gen (snd positional)].
Proof.
  cbv zeta. rewrite readAll_drain.
  exact (Options_readAll_drain s3 fuel c bkt obj cfg).
Qed.




(** ** The ranges that are requested *)

Lemma ranges_app (c : list Mock.request) (r : Mock.request) :
  ranges (c ++ [r])
  = (ranges c ++ match r with
                 | Mock.SendRequest command => [Range command]
                 | Mock.HeadObjectRequest _ _ => []
                 end)%list.
Proof.
  induction c as [|x c IH]; simpl.
  - destruct r; reflexivity.
  - destruct x; rewrite IH; reflexivity.
Qed.

Lemma tiles_snoc (bs sz : Z) (rs : list (Z * Z)) :
  forall (from mid last : Z),
    tiles bs sz from rs mid ->
    mid < sz -> mid <= last -> last <= sz -> last - mid <= bs ->
    tiles bs sz from (rs ++ [(mid, last)]) (last + 1).
Proof.
  induction rs as [|[a b] rs IH]; intros from mid last H H1 H2 H3 H4; simpl in *.
  - subst mid. now repeat split.
  - destruct H as (Ha & Hb & Hc & Hd & He & Hrest).
    repeat split; try assumption. now apply IH.
Qed.

Section Tiling.

Context {E : Type}.
Variable data : string.
Variable d : string.

Local Abbreviation s3 := (Mock.S3 (E := E) data).

Lemma fetchLoop_tiles (fuel : nat) :
  forall (c : list Mock.request) (this : reader),
    0 < bufferSize this ->
    tiles (bufferSize this) (size this) 0 (ranges c) (byteOffset this) ->
    let t := fetchLoop s3 d fuel c this in
    tiles (bufferSize this) (size this) 0 (ranges (conn t))
      (byteOffset (self t)).
Proof.
  induction fuel as [|fuel IH]; intros c this Hbs Ht t; subst t.
  - destruct (byteOffset this <? size this) eqn:Hlt.
    + now rewrite fetchLoop_out_of_fuel.
    + now rewrite fetchLoop_done.
  - destruct (byteOffset this <? size this) eqn:Hlt;
      [|now rewrite fetchLoop_done].
    rewrite fetchLoop_more by assumption. cbv zeta. apply Z.ltb_lt in Hlt.
    set (last := if byteOffset this + bufferSize this >? size this
                 then size this
                 else byteOffset this + bufferSize this).
    assert (Hlast : byteOffset this <= last /\ last <= size this /\
                    last - byteOffset this <= bufferSize this).
    { subst last. destruct (_ >? _) eqn:Hc; lia. }
    set (command := {| Bucket := bucket this; Key := key this;
                       Range := (byteOffset this, last) |}).
    assert (Hnew : tiles (bufferSize this) (size this) 0
                     (ranges (c ++ [Mock.SendRequest command])) (last + 1)).
    { rewrite ranges_app. apply tiles_snoc; try assumption; lia. }
    set (this1 := set_partial "" (set_byteOffset (last + 1) this)).
    pose proof (scan_self d (partial this
                             ++ Mock.subarray data (byteOffset this) (last + 1))
                  this1) as Hscan.
    destruct (scan d _ this1) as [line buffer p this2 | this2 |];
      [| |contradiction]; destruct Hscan as (Ho & Hs & Hb);
      simpl in Ho, Hs, Hb.
    + simpl. now rewrite Ho.
    + specialize (IH (c ++ [Mock.SendRequest command])%list this2).
      cbv zeta in IH. rewrite Hs, Hb, Ho in IH. apply IH; assumption.
Qed.

Lemma after_tiles (bs : Z) (fuels : list nat) (bkt obj : string) :
  0 < bs ->
  let t := after (resume s3 d) fuels []
             (Positional.created bkt obj (Some bs)) SuspendedStart in
  (gen t = SuspendedStart /\ ranges (conn t) = []) \/
  (gen t <> SuspendedStart /\
   tiles bs (Z.of_nat (String.length data)) 0 (ranges (conn t))
     (byteOffset (self t))).
Proof.
  intros Hbs. induction fuels as [|fuel fuels IH] using rev_ind.
  - left. now split.
  - rewrite after_snoc. cbv zeta in *.
    pose proof (after_cursor (E := E) data d bs fuels [] bkt obj Hbs) as Hok.
    set (t := after (resume s3 d) fuels []
                (Positional.created bkt obj (Some bs)) SuspendedStart) in *.
    pose proof (resume_cursor data d bs fuel t Hbs Hok) as [Hok' _].
    cbv zeta in Hok'. right.
    destruct Hok as (Hb & [(Hg & _ & Ho & Hs) | (Hg & Hs & Ho & _)]).
    + destruct IH as [[_ Hr] | [Hne _]]; [|congruence].
      rewrite Hg. rewrite resume_start_mock.
      set (this1 := set_size _ (self t)).
      pose proof (fetchLoop_cursor (E := E) data d fuel
                    (conn t ++ [Mock.HeadObjectRequest (bucket (self t))
                                  (key (self t))])%list this1) as Hc.
      pose proof (fetchLoop_tiles fuel
                    (conn t ++ [Mock.HeadObjectRequest (bucket (self t))
                                  (key (self t))])%list this1) as Ht.
      cbv zeta in Hc, Ht. simpl in Hc, Ht.
      rewrite Hb, ranges_app, Hr, Ho in Ht. simpl in Ht.
      destruct Hc as (_ & _ & _ & Hne & _); [lia | lia|].
      split; [exact Hne | apply Ht; [exact Hbs | reflexivity]].
    + destruct IH as [[Hst _] | [_ Ht]]; [congruence|].
      destruct (gen t) as [|buffer p| |] eqn:Hgen; [congruence| | |].
      * cbn [resume].
        pose proof (scan_self d
                      (substringFrom buffer (p + String.length d)) (self t))
          as Hscan.
        destruct (scan d _ (self t)) as [line buffer' q this2 | this2 |];
          [| |contradiction]; destruct Hscan as (Ho' & Hs' & Hb').
        -- simpl. split; [discriminate | now rewrite Ho'].
        -- pose proof (fetchLoop_cursor (E := E) data d fuel (conn t) this2) as Hc.
           pose proof (fetchLoop_tiles fuel (conn t) this2) as Ht2.
           cbv zeta in Hc, Ht2. rewrite Hs', Hb', Ho', Hs, Hb in Ht2.
           destruct Hc as (_ & _ & _ & Hne & _); [lia | lia|].
           split; [exact Hne | apply Ht2; assumption].
      * simpl. split; [discriminate | exact Ht].
      * simpl. split; [discriminate | exact Ht].
Qed.

End Tiling.

(** X7.  At any time of a pass with the loop of [src/s3-line-reader.ts]
    the ranges requested so far follow one another from byte 0 up to the
    cursor, without gap or overlap: every request starts where the one
    before ended plus one and below the size, ends at the size at most
    and asks for at most [bufferSize + 1] bytes; no byte is requested
    twice and none is skipped. *)
Theorem requests_tile_the_object {E : Type} (data d : string) (bs : Z)
  (fuels : list nat) (bkt obj : string) :
  0 < bs ->
  let t := after (resume (Mock.S3 (E := E) data) d) fuels []
             (Positional.created bkt obj (Some bs)) SuspendedStart in
  tiles bs (Z.of_nat (String.length data)) 0 (ranges (conn t))
    (byteOffset (self t)).
Proof.
  intros Hbs t. subst t.
  pose proof (after_cursor (E := E) data d bs fuels [] bkt obj Hbs) as Hok.
  destruct (after_tiles (E := E) data d bs fuels bkt obj Hbs)
    as [[Hg Hr] | [_ Ht]]; [|exact Ht].
  destruct Hok as (_ & [(_ & _ & Ho & _) | (Hne & _)]); [|congruence].
  rewrite Hr, Ho. reflexivity.
Qed.

Lemma requests_tile_the_object_witness :
  0 < 2 /\
  let t := after (resume (Mock.S3 (E := unit) "abcdefgh") LF) [3%nat] []
             (Positional.created "some-bucket" "some-key" (Some 2))
             SuspendedStart in
  ranges (conn t) = [(0, 2); (3, 5); (6, 8)] /\
  tiles 2 (Z.of_nat (String.length "abcdefgh")) 0 (ranges (conn t))
    (byteOffset (self t)).
Proof.
  split; [lia|]. split; [reflexivity|].
  apply (requests_tile_the_object (E := unit) "abcdefgh" LF 2 [3%nat]
           "some-bucket" "some-key"). lia.
Defined.

(** ** What is kept in memory *)

Lemma indexOf_within (a b d : string) :
  forall p : nat,
    indexOf (a ++ b) d = Some p ->
    (p + String.length d <= String.length a)%nat ->
    indexOf a d = Some p.
Proof.
  induction a as [|c a IH]; intros p H Hle.
  - simpl in Hle. assert (Hd : String.length d = 0%nat) by lia.
    apply length_zero in Hd. subst d.
    assert (p = 0%nat) by lia. subst p. reflexivity.
  - rewrite indexOf_unfold in H. rewrite indexOf_unfold.
    rewrite startsWith_window in H by lia.
    destruct (startsWith (String c a) d); [exact H|].
    cbn [append] in H.
    destruct (indexOf (a ++ b) d) as [q|] eqn:Hq; simpl in H; [|discriminate].
    injection H as <-. simpl in Hle.
    rewrite (IH q eq_refl); [reflexivity | lia].
Qed.

Section Memory.

Context {E : Type}.
Variable data : string.
Variable d : string.
Hypothesis delimiter_not_empty : d <> "".

Local Abbreviation s3 := (Mock.S3 (E := E) data).

Lemma subarray_length (first last : Z) :
  0 <= first <= last ->
  Z.of_nat (String.length (Mock.subarray data first (last + 1)))
  <= last - first + 1.
Proof.
  intros H. unfold Mock.subarray. rewrite length_take. lia.
Qed.

Lemma fetchLoop_bounded (fuel : nat) :
  forall (c : list Mock.request) (this : reader),
    between data d this ->
    bounded data d (bufferSize this) (fetchLoop s3 d fuel c this).
Proof.
  induction fuel as [|fuel IH]; intros c this Hb.
  - destruct (byteOffset this <? size this) eqn:Hlt.
    + rewrite fetchLoop_out_of_fuel by assumption. now split.
    + rewrite fetchLoop_done by assumption. now split.
  - destruct (byteOffset this <? size this) eqn:Hlt;
      [|rewrite fetchLoop_done by assumption; now split].
    rewrite fetchLoop_more by assumption. cbv zeta. apply Z.ltb_lt in Hlt.
    destruct Hb as (Hsz & Hoff & Hbs & Hpar).
    set (last := if byteOffset this + bufferSize this >? size this
                 then size this
                 else byteOffset this + bufferSize this).
    assert (Hlast : byteOffset this <= last /\
                    last - byteOffset this <= bufferSize this).
    { subst last. destruct (_ >? _) eqn:Hc; lia. }
    pose proof (subarray_length (byteOffset this) last) as Hchunk.
    set (chunk := Mock.subarray data (byteOffset this) (last + 1)) in *.
    set (this1 := set_partial "" (set_byteOffset (last + 1) this)).
    assert (Hb1 : forall s, indexOf s d = None ->
                            between data d (set_partial s this1)).
    { intros s Hs. repeat split; simpl; try assumption; lia. }
    unfold scan.
    destruct (String.length (partial this ++ chunk) =? 0)%nat eqn:Hempty.
    + apply (IH _ this1), (Hb1 "").
      now apply indexOf_empty_data.
    + destruct (indexOf (partial this ++ chunk) d) as [p|] eqn:Hp.
      * split; [reflexivity|]. cbn [gen self].
        split; [apply (Hb1 ""); now apply indexOf_empty_data|].
        split; [exact Hp|].
        assert (Hlong : (String.length (partial this) < p + String.length d)%nat).
        { destruct (Nat.lt_ge_cases (String.length (partial this))
                      (p + String.length d)) as [Hlt'|Hge]; [exact Hlt'|].
          rewrite (indexOf_within _ _ _ _ Hp Hge) in Hpar. discriminate. }
        rewrite length_drop, length_append. lia.
      * apply (IH _ (set_partial (partial this ++ chunk) this1)).
        now apply Hb1.
Qed.

Lemma resume_bounded (bs : Z) (fuel : nat) (t : turn E (list Mock.request)) :
  0 < bs -> bounded data d bs t ->
  bounded data d bs (resume s3 d fuel (conn t) (self t) (gen t)).
Proof.
  intros Hbs (Hb & H). destruct (gen t) as [|buffer p| |] eqn:Hgen.
  - destruct H as (Ho & Hpar). rewrite resume_start_mock.
    set (this1 := set_size _ (self t)).
    assert (Hbt : between data d this1).
    { repeat split; simpl; try lia.
      rewrite Hpar. now apply indexOf_empty_data. }
    pose proof (fetchLoop_bounded fuel
                  (conn t ++ [Mock.HeadObjectRequest (bucket (self t))
                                (key (self t))])%list this1 Hbt) as H.
    simpl in H. now rewrite Hb in H.
  - destruct H as (Hbt & Hp & Hlen). cbn [resume]. unfold substringFrom.
    set (rest := drop (p + String.length d) buffer) in *.
    unfold scan. destruct (String.length rest =? 0)%nat eqn:Hempty.
    + rewrite <- Hb. now apply fetchLoop_bounded.
    + destruct (indexOf rest d) as [q|] eqn:Hq.
      * split; [exact Hb|]. cbn [gen self]. split; [exact Hbt|].
        split; [exact Hq|]. rewrite length_drop. lia.
      * destruct Hbt as (Hsz & Hoff & Hbs' & _).
        pose proof (fetchLoop_bounded fuel (conn t)
                      (set_partial rest (self t))) as H.
        simpl in H. rewrite Hb in H. apply H. now repeat split.
  - simpl. now split.
  - simpl. now split.
Qed.

Lemma after_bounded (bs : Z) (fuels : list nat) (c : list Mock.request)
  (bkt obj : string) :
  0 < bs ->
  bounded data d bs (after (resume s3 d) fuels c
                       (Positional.created bkt obj (Some bs)) SuspendedStart).
Proof.
  intros Hbs. induction fuels as [|fuel fuels IH] using rev_ind.
  - split; [reflexivity|]. now split.
  - rewrite after_snoc. now apply resume_bounded.
Qed.

End Memory.

(** X8.  At any time of a pass with the loop of [src/s3-line-reader.ts]
    the carry holds no delimiter, and a generator suspended at a [yield]
    holds a buffer that is at most the record it yielded, the delimiter and
    [bufferSize] bytes more. *)
Theorem buffer_is_bounded {E : Type} (data d : string) (bs : Z)
  (fuels : list nat) (c : list Mock.request) (bkt obj : string) :
  d <> "" -> 0 < bs ->
  let t := after (resume (Mock.S3 (E := E) data) d) fuels c
             (Positional.created bkt obj (Some bs)) SuspendedStart in
  indexOf (partial (self t)) d = None /\
  (forall buffer p,
      gen t = SuspendedYield buffer p ->
      String.length (substring buffer 0 p) = p /\
      Z.of_nat (String.length buffer)
      <= Z.of_nat (String.length (substring buffer 0 p))
         + Z.of_nat (String.length d) + bs).
Proof.
  intros Hd Hbs t. subst t.
  pose proof (after_bounded (E := E) data d Hd bs fuels c bkt obj Hbs)
    as (Hb & H).
  set (t := after _ fuels c _ SuspendedStart) in *.
  destruct (gen t) as [|buffer p| |] eqn:Hgen.
  - destruct H as (_ & Hpar). rewrite Hpar.
    split; [now apply indexOf_empty_data | discriminate].
  - destruct H as ((_ & _ & _ & Hpar) & Hp & Hlen).
    split; [exact Hpar|]. intros buffer' p' [= <- <-].
    pose proof (indexOf_bound _ _ _ Hp) as Hbd.
    rewrite length_drop in Hlen. rewrite substring_0, length_take.
    split; lia.
  - destruct H as (_ & _ & _ & Hpar). split; [exact Hpar | discriminate].
  - destruct H as (_ & _ & _ & Hpar). split; [exact Hpar | discriminate].
Qed.

Lemma buffer_is_bounded_witness :
  LF <> "" /\ 0 < 3 /\
  let t := after (resume (Mock.S3 (E := unit) ("ab" ++ LF ++ "cdefgh")) LF)
             [2%nat] [] (Positional.created "some-bucket" "some-key" (Some 3))
             SuspendedStart in
  gen t = SuspendedYield ("ab" ++ LF ++ "c") 2 /\
  indexOf (partial (self t)) LF = None /\
  (forall buffer p,
      gen t = SuspendedYield buffer p ->
      String.length (substring buffer 0 p) = p /\
      Z.of_nat (String.length buffer)
      <= Z.of_nat (String.length (substring buffer 0 p))
         + Z.of_nat (String.length LF) + 3).
Proof.
  split; [discriminate|]. split; [lia|]. split; [reflexivity|].
  apply (buffer_is_bounded (E := unit) ("ab" ++ LF ++ "cdefgh") LF 3 [2%nat]
           [] "some-bucket" "some-key"); [discriminate | lia].
Defined.

(** ** What the loop of [src/unnamed/part_001] gets right *)

Lemma single_character_safe (c : ascii) : carry_safe (String c "").
Proof.
  intros a b p Ha Hb. induction a as [|x a IH]; [exact Hb|].
  rewrite indexOf_unfold in Ha. rewrite indexOf_unfold.
  cbn [append startsWith] in *.
  destruct (Ascii.eqb c x); simpl in *.
  - destruct a; discriminate.
  - destruct (indexOf a (String c "")) as [q|] eqn:Hq; [discriminate|].
    now rewrite (IH eq_refl).
Qed.

Section AppendText.

Context {E : Type}.
Variable data : string.
Variable d : string.
Hypothesis delimiter_not_empty : d <> "".

Local Abbreviation s3 := (Mock.S3 (E := E) data).

(** One run of the inner loop: the record it yields, the delimiter and the
    text it keeps are the carry and the buffer it was given. *)
Lemma Append_scan_text (fuel : nat) (buffer : string) (this : reader) :
  (2 <= fuel)%nat ->
  indexOf (partial this) d = None ->
  match Append.scan d fuel buffer this with
  | Line line buffer' p this' =>
      indexOf buffer' d = Some p /\
      partial this' = "" /\
      partial this ++ buffer
      = line ++ d ++ drop (p + String.length d) buffer' /\
      byteOffset this' = byteOffset this /\ size this' = size this /\
      bufferSize this' = bufferSize this /\
      (carry_safe d \/ partial this = "" ->
       forall tail,
         indexOf ((partial this ++ buffer) ++ tail) d
         = Some (String.length line))
  | Exit this' =>
      partial this' = partial this ++ buffer /\
      indexOf (partial this') d = None /\
      byteOffset this' = byteOffset this /\ size this' = size this /\
      bufferSize this' = bufferSize this
  | Spinning => False
  end.
Proof.
  intros Hf Hpar. destruct fuel as [|[|fuel]]; try lia. cbn [Append.scan].
  destruct (String.length buffer =? 0)%nat eqn:Hempty.
  - apply Nat.eqb_eq, length_zero in Hempty. subst buffer.
    rewrite append_empty_r. now repeat split.
  - destruct (indexOf buffer d) as [p|] eqn:Hp.
    + pose proof (indexOf_bound _ _ _ Hp) as Hbd.
      pose proof (indexOf_split _ _ _ Hp) as Hcut.
      destruct (String.length (partial this) =? 0)%nat eqn:Hcarry.
      * apply Nat.eqb_eq, length_zero in Hcarry. rewrite Hcarry.
        rewrite substring_0. repeat split; try assumption.
        intros _ tail. cbn [append]. rewrite length_take.
        replace (Nat.min p (String.length buffer)) with p by lia.
        now apply indexOf_append.
      * rewrite substring_0. cbn [partial set_partial byteOffset size
                                  bufferSize].
        repeat split; try assumption.
        -- rewrite append_assoc. now rewrite <- Hcut.
        -- intros [Hsafe | Hnone] tail.
           ++ rewrite length_append, length_take.
              replace (Nat.min p (String.length buffer)) with p by lia.
              apply indexOf_append. now apply Hsafe.
           ++ rewrite Hnone in Hcarry. discriminate.
    + cbn [partial set_partial].
      destruct (indexOf (partial this ++ buffer) d) as [q|] eqn:Hq.
      * destruct (String.length (partial this ++ buffer) =? 0)%nat eqn:He.
        { apply Nat.eqb_eq, length_zero in He. rewrite He in Hq.
          rewrite indexOf_empty_data in Hq by assumption. discriminate. }
        pose proof (indexOf_bound _ _ _ Hq) as Hbd.
        cbn [String.length Nat.eqb]. rewrite substring_0.
        cbn [partial set_partial byteOffset size bufferSize].
        repeat split; try assumption.
        -- now apply indexOf_split.
        -- intros _ tail. rewrite length_take.
           replace (Nat.min q (String.length (partial this ++ buffer)))
             with q by lia.
           now apply indexOf_append.
      * now repeat split.
Qed.

Lemma Append_fetchLoop_appends (flag : Prop) (fuel : nat) :
  forall (c : list Mock.request) (this : reader),
    between data d this ->
    (flag -> ready_safe data d this) ->
    (String.length (unfetched data this) + 1 < fuel)%nat ->
    appends data d flag (partial this ++ unfetched data this)
      (Append.fetchLoop s3 d fuel c this).
Proof.
  induction fuel as [|fuel IH]; intros c this Hb Hready Hf; [lia|].
  destruct Hb as (Hsz & Hoff & Hbs & Hpar).
  destruct (byteOffset this <? size this) eqn:Hlt.
  - rewrite Append_fetchLoop_more by assumption. cbv zeta.
    apply Z.ltb_lt in Hlt.
    assert (Hone := one_fetch data (byteOffset this) (bufferSize this)).
    rewrite <- Hsz in Hone. specialize (Hone (conj Hoff Hlt) Hbs).
    cbv zeta in Hone.
    set (last := if byteOffset this + bufferSize this >? size this
                 then size this
                 else byteOffset this + bufferSize this) in *.
    destruct Hone as (Hcat & Hlen & Hadv).
    set (chunk := Mock.subarray data (byteOffset this) (last + 1)) in *.
    set (this1 := set_byteOffset (last + 1) this).
    assert (Hun : unfetched data this1 = drop (Z.to_nat (last + 1)) data)
      by reflexivity.
    assert (Hu : unfetched data this = chunk ++ unfetched data this1)
      by (rewrite Hun; symmetry; exact Hcat).
    rewrite <- Hun in Hlen. fold (unfetched data this) in Hlen.
    assert (Hchunk : (0 < String.length chunk)%nat)
      by (rewrite Hu, length_append in Hlen; lia).
    assert (Hcover : byteOffset this = 0 ->
                     size this <= bufferSize this + 1 ->
                     size this <= last + 1).
    { intros Ho Hall. unfold last.
      destruct (byteOffset this + bufferSize this >? size this) eqn:Hc; lia. }
    assert (Hrest : flag -> carry_safe d \/ unfetched data this1 = "").
    { intros Hfl. destruct (Hready Hfl) as [Hs | [Hnone | (_ & Ho & Hall)]].
      - now left.
      - rewrite Hnone in Hu. destruct chunk; [simpl in Hchunk; lia|].
        discriminate.
      - right. rewrite Hun. apply drop_all.
        specialize (Hcover Ho Hall). lia. }
    assert (Hclean : flag -> carry_safe d \/ partial this1 = "").
    { intros Hfl. destruct (Hready Hfl) as [Hs | [Hnone | (Hp0 & _)]].
      - now left.
      - rewrite Hnone in Hu. destruct chunk; [simpl in Hchunk; lia|].
        discriminate.
      - now right. }
    pose proof (Append_scan_text (S fuel) chunk this1) as Hscan.
    destruct (Append.scan d (S fuel) chunk this1)
      as [line buffer p this2 | this2 |].
    + destruct Hscan as (Hp & Hpar2 & Htext & Ho & Hs2 & Hb2 & Hleft);
        [lia | exact Hpar |].
      assert (Hu2 : unfetched data this2 = unfetched data this1)
        by (unfold unfetched; now rewrite Ho).
      simpl in Htext, Ho, Hs2, Hb2, Hleft.
      assert (HP : partial this ++ unfetched data this
                   = line ++ d ++ drop (p + String.length d) buffer
                       ++ unfetched data this2).
      { rewrite Hu2, Hu, <- append_assoc, Htext, !append_assoc.
        reflexivity. }
      split; [|split].
      * repeat split; simpl; try lia.
        rewrite Hpar2. now apply indexOf_empty_data.
      * intros Hfl. simpl. unfold settled_safe. rewrite Hu2. now apply Hrest.
      * left. exists line, buffer, p. cbn [result gen self].
        repeat split; try assumption.
        intros Hfl. rewrite Hu, <- append_assoc.
        apply Hleft. now apply Hclean.
    + destruct Hscan as (Hpar2 & Hfree & Ho & Hs2 & Hb2);
        [lia | exact Hpar |].
      assert (Hu2 : unfetched data this2 = unfetched data this1)
        by (unfold unfetched; now rewrite Ho).
      simpl in Hpar2, Ho, Hs2, Hb2.
      replace (partial this ++ unfetched data this)
        with (partial this2 ++ unfetched data this2)
        by (rewrite Hpar2, Hu2, Hu, append_assoc; reflexivity).
      apply IH.
      * repeat split; try assumption; lia.
      * intros Hfl. unfold ready_safe. rewrite Hu2.
        destruct (Hrest Hfl) as [Hs | Hnone]; [now left | right; now left].
      * rewrite Hu2. rewrite Hu, length_append in Hf. lia.
    + destruct Hscan; [lia | exact Hpar].
  - rewrite Append_fetchLoop_done by assumption. apply Z.ltb_ge in Hlt.
    assert (Hu : unfetched data this = "")
      by (unfold unfetched; apply drop_all; lia).
    rewrite Hu, append_empty_r. split; [now repeat split|].
    split; [intros _; now right|]. right. now repeat split.
Qed.

Lemma Append_next_appends (flag : Prop) (fuel : nat)
  (c : list Mock.request) (this : reader) (buffer : string) (p : nat) :
  between data d this ->
  partial this = "" ->
  (flag -> settled_safe data d this) ->
  (String.length (unfetched data this) + 1 < fuel)%nat ->
  appends data d flag
    (drop (p + String.length d) buffer ++ unfetched data this)
    (Append.next s3 d fuel c this (SuspendedYield buffer p)).
Proof.
  intros Hb Hcarry Hsafe Hf. cbn [Append.next]. unfold substringFrom.
  set (rest := drop (p + String.length d) buffer).
  destruct Hb as (Hsz & Hoff & Hbs & Hpar).
  pose proof (Append_scan_text (S fuel) rest this) as Hscan.
  destruct (Append.scan d (S fuel) rest this)
    as [line buffer' q this2 | this2 |].
  - destruct Hscan as (Hq & Hpar2 & Htext & Ho & Hs2 & Hb2 & Hleft);
      [lia | exact Hpar |].
    assert (Hu2 : unfetched data this2 = unfetched data this)
      by (unfold unfetched; now rewrite Ho).
    rewrite Hcarry in Htext, Hleft. cbn [append] in Htext, Hleft.
    split; [|split].
    + repeat split; simpl; try lia.
      rewrite Hpar2. now apply indexOf_empty_data.
    + intros Hfl. simpl. unfold settled_safe. rewrite Hu2. now apply Hsafe.
    + left. exists line, buffer', q. cbn [result gen self].
      repeat split; try assumption.
      * rewrite Hu2, Htext, !append_assoc. reflexivity.
      * intros _. apply Hleft. now right.
  - destruct Hscan as (Hpar2 & Hfree & Ho & Hs2 & Hb2);
      [lia | exact Hpar |].
    assert (Hu2 : unfetched data this2 = unfetched data this)
      by (unfold unfetched; now rewrite Ho).
    rewrite Hcarry in Hpar2. cbn [append] in Hpar2.
    replace (rest ++ unfetched data this)
      with (partial this2 ++ unfetched data this2)
      by (now rewrite Hpar2, Hu2).
    apply Append_fetchLoop_appends.
    + repeat split; try assumption; lia.
    + intros Hfl. unfold ready_safe. rewrite Hu2.
      destruct (Hsafe Hfl) as [Hs | Hnone]; [now left | right; now left].
    + now rewrite Hu2.
  - destruct Hscan; [lia | exact Hpar].
Qed.

Lemma Append_continue_appends (flag : Prop) (fuel : nat) :
  forall (P : string) (t : turn E (list Mock.request)),
    appends data d flag P t ->
    (String.length P + 1 < fuel)%nat ->
    exists lines last t',
      continue (Append.next s3 d) fuel t = (lines, t') /\
      result t' = Returned (Some last) /\
      terminated d lines ++ last = P /\
      (flag -> Splits d P lines last).
Proof.
  induction fuel as [|fuel IH]; intros P t (Hb & Hsafe & H) Hf; [lia|].
  destruct H as [(line & buffer & p & Hr & Hg & Hp & Hcarry & HP & Hleft)
                | (Hr & Hg & Hfree)].
  - unfold continue. rewrite Hr, Hg. rewrite drain_S.
    set (P' := drop (p + String.length d) buffer
               ++ unfetched data (self t)) in *.
    assert (HlP : String.length P
                  = (String.length line + String.length d
                     + String.length P')%nat)
      by (rewrite HP, !length_append; lia).
    assert (Hun : (String.length (unfetched data (self t))
                   <= String.length P')%nat)
      by (subst P'; rewrite length_append; lia).
    destruct (IH P' (Append.next s3 d fuel (conn t) (self t)
                       (SuspendedYield buffer p)))
      as (lines & last & t' & Hc & Hr' & Hcat & Hsp).
    + assert (Hdl : (0 < String.length d)%nat)
        by (destruct d; [congruence | simpl; lia]).
      apply Append_next_appends; try assumption. lia.
    + assert (Hdl : (0 < String.length d)%nat)
        by (destruct d; [congruence | simpl; lia]).
      lia.
    + rewrite Hc. exists (line :: lines), last, t'.
      split; [reflexivity|]. split; [exact Hr'|]. split.
      * simpl. rewrite !append_assoc, Hcat. now rewrite HP.
      * intros Hfl. specialize (Hleft Hfl). specialize (Hsp Hfl).
        rewrite <- (take_length_append line (d ++ P')).
        rewrite <- HP. apply Splits_line; [exact Hleft|].
        rewrite HP, <- drop_drop, !drop_length_append. exact Hsp.
  - unfold continue. rewrite Hr. exists [], P, t.
    repeat split; try assumption. intros _. now apply Splits_last.
Qed.

Lemma Append_readAll_text (flag : Prop) (fuel : nat)
  (c : list Mock.request) (bkt obj : string) (bs : Z) :
  0 < bs ->
  (flag -> carry_safe d \/ Z.of_nat (String.length data) <= bs + 1) ->
  (String.length data + 3 <= fuel)%nat ->
  exists lines last t,
    Append.readAll s3 fuel c bkt obj (Some bs) (Some d) = (lines, t) /\
    result t = Returned (Some last) /\
    terminated d lines ++ last = data /\
    (flag -> Splits d data lines last).
Proof.
  intros Hbs Hflag Hf. destruct fuel as [|fuel]; [lia|].
  unfold Append.readAll. rewrite drain_S.
  apply (Append_continue_appends flag fuel data); [|lia].
  cbn [Append.next Mock.S3 headObject ContentLength].
  set (this1 := set_size _ _).
  pose proof (Append_fetchLoop_appends flag fuel
                (c ++ [Mock.HeadObjectRequest
                         (bucket (Append.created bkt obj (Some bs)))
                         (key (Append.created bkt obj (Some bs)))])%list
                this1) as H.
  assert (Hu : unfetched data this1 = data) by reflexivity.
  rewrite Hu in H. apply H.
  - repeat split; simpl; try lia. now apply indexOf_empty_data.
  - intros Hfl. destruct (Hflag Hfl) as [Hs | Hall]; [now left|].
    right; right. simpl. repeat split. exact Hall.
  - lia.
Qed.

End AppendText.



Lemma Append_agrees {E : Type} (data d : string) (bs : Z) (fuel : nat)
  (c : list Mock.request) (bkt obj : string) :
  d <> "" -> 0 < bs ->
  carry_safe d \/ Z.of_nat (String.length data) <= bs + 1 ->
  (String.length data + 3 <= fuel)%nat ->
  let appended := Append.readAll (Mock.S3 (E := E) data) fuel c bkt obj
                    (Some bs) (Some d) in
  let prepended := Positional.readAll (Mock.S3 (E := E) data) fuel c bkt obj
                     (Some bs) (Some d) in
  fst appended = fst prepended /\
  result (snd appended) = result (snd prepended) /\
  exists last, result (snd appended) = Returned (Some last).
Proof.
  intros Hd Hbs Hsafe Hf appended prepended. subst appended prepended.
  destruct (Append_readAll_text (E := E) data d Hd True fuel c bkt obj bs Hbs)
    as (l1 & t1 & u1 & Hrun1 & Hres1 & _ & Hsp1);
    [intros _; exact Hsafe | exact Hf |].
  assert (Hf2 : (String.length data + 2 <= fuel)%nat) by lia.
  destruct (readAll_splits (E := E) data d Hd fuel c bkt obj bs Hbs Hf2)
    as (l2 & t2 & u2 & Hrun2 & Hres2 & _ & Hsp2 & _).
  destruct (Splits_functional _ _ _ _ _ _ (Hsp1 I) Hsp2) as [-> ->].
  rewrite Hrun1, Hrun2. simpl. rewrite Hres1, Hres2.
  repeat split. now exists t2.
Qed.

(** X10.  With a delimiter of one character (the default ['\n'] is one)
    the loop of [src/unnamed/part_001] yields the records and returns the
    value that the loop of [src/s3-line-reader.ts] does, for every object
    and every positive chunk size. *)
Theorem append_agrees_on_one_character {E : Type} (data : string)
  (ch : ascii) (bs : Z) (fuel : nat) (c : list Mock.request)
  (bkt obj : string) :
  0 < bs -> (String.length data + 3 <= fuel)%nat ->
  let appended := Append.readAll (Mock.S3 (E := E) data) fuel c bkt obj
                    (Some bs) (Some (String ch "")) in
  let prepended := Positional.readAll (Mock.S3 (E := E) data) fuel c bkt obj
                     (Some bs) (Some (String ch "")) in
  fst appended = fst prepended /\
  result (snd appended) = result (snd prepended) /\
  exists last, result (snd appended) = Returned (Some last).
Proof.
  intros Hbs Hf. apply Append_agrees; try assumption; [discriminate|].
  left. apply single_character_safe.
Qed.

Lemma append_agrees_on_one_character_witness :
  0 < 1 /\ (String.length ("ab" ++ LF ++ LF ++ "c") + 3 <= 8)%nat /\
  let appended := Append.readAll (Mock.S3 (E := unit) ("ab" ++ LF ++ LF ++ "c"))
                    8 [] "some-bucket" "some-key" (Some 1)
                    (Some (String "010"%char "")) in
  let prepended := Positional.readAll
                     (Mock.S3 (E := unit) ("ab" ++ LF ++ LF ++ "c"))
                     8 [] "some-bucket" "some-key" (Some 1)
                     (Some (String "010"%char "")) in
  fst appended = fst prepended /\
  result (snd appended) = result (snd prepended) /\
  exists last, result (snd appended) = Returned (Some last).
Proof.
  split; [lia|]. split; [simpl; lia|].
  apply append_agrees_on_one_character; [lia | simpl; lia].
Defined.

(** X11.  When the first range takes the whole object
    ([size <= bufferSize + 1]) the loop of [src/unnamed/part_001] yields
    the records and returns the value that the loop of
    [src/s3-line-reader.ts] does, for every non-empty delimiter. *)
Theorem append_agrees_in_one_chunk {E : Type} (data d : string) (bs : Z)
  (fuel : nat) (c : list Mock.request) (bkt obj : string) :
  d <> "" -> 0 < bs ->
  Z.of_nat (String.length data) <= bs + 1 ->
  (String.length data + 3 <= fuel)%nat ->
  let appended := Append.readAll (Mock.S3 (E := E) data) fuel c bkt obj
                    (Some bs) (Some d) in
  let prepended := Positional.readAll (Mock.S3 (E := E) data) fuel c bkt obj
                     (Some bs) (Some d) in
  fst appended = fst prepended /\
  result (snd appended) = result (snd prepended) /\
  exists last, result (snd appended) = Returned (Some last).
Proof.
  intros Hd Hbs Hall Hf. apply Append_agrees; try assumption. now right.
Qed.

Lemma append_agrees_in_one_chunk_witness :
  "xy" <> "" /\ 0 < 5 /\ Z.of_nat (String.length "aaxyxy") <= 5 + 1 /\
  (String.length "aaxyxy" + 3 <= 9)%nat /\
  let appended := Append.readAll (Mock.S3 (E := unit) "aaxyxy") 9 []
                    "some-bucket" "some-key" (Some 5) (Some "xy") in
  let prepended := Positional.readAll (Mock.S3 (E := unit) "aaxyxy") 9 []
                     "some-bucket" "some-key" (Some 5) (Some "xy") in
  fst appended = fst prepended /\
  result (snd appended) = result (snd prepended) /\
  exists last, result (snd appended) = Returned (Some last).
Proof.
  split; [discriminate|]. split; [lia|]. split; [simpl; lia|].
  split; [simpl; lia|].
  apply append_agrees_in_one_chunk;
    [discriminate | lia | simpl; lia | simpl; lia].
Defined.
